(** * Evaluation of CloudFormation template expressions (hotswap)

    A shallow embedding of
    [packages/aws-cdk/lib/api/hotswap/evaluate-cloudformation-template.ts]
    and the properties of its evaluator.

    Conventions of the embedding.
    - A template expression is a JSON value; [VUndefined] is JavaScript's
      [undefined], which the evaluator can produce and receive.  Numbers are
      the integer-valued ones; strings are sequences of code units below
      256.
    - The objects the code uses as dictionaries (the parameter context, the
      formatter table and its rows, an evaluated placeholder mapping, a plain
      template object) are made by object literals or read from JSON, so
      they inherit from [Object.prototype].  A read or an [in] test on them
      under a name they have no entry for finds the member of
      [Object.prototype] of that name, when there is one; [VNative] is such a
      member.  An assignment under the key ["__proto__"] runs the inherited
      setter and writes no entry.  The lookup [(this as any)[intrinsic.name]]
      is modelled with every member the [CfnIntrinsics] instance answers to.
    - [ToString] is the text of a value, and [renders] tells where the
      conversion of the code gives that text: for a safe integer, which
      prints in full, and for an object with no key ["toString"] of its
      own.  Elsewhere the conversion is left to [Unmodelled].
    - An [async] function is the function of its result: [Ok] for a resolved
      promise, [Throw] for a rejection with a [CfnEvaluationException],
      [TypeError] for a rejection raised by the runtime itself.
      [listStackResources()] resolves to the inventory snapshot of the
      session.
    - [Unmodelled] stands where the model does not say what the code does:
      the application of a built-in (as a member of [CfnIntrinsics], as a
      formatter, as a [join] or [split] method), a property read on a
      built-in, what an array, a string, a number or a boolean inherits under
      a name that is no numeral, an object whose prototype was replaced, an
      [async] function that returns a thenable, the elements of one array
      failing in different ways, where the rejection reported is the first in
      time, and a conversion to a string outside [renders].
    - [OutOfFuel] keeps the loop and the recursion structural;
      [evaluateCfnExpression_fuelled] shows that no evaluation ends in it. *)

From Stdlib Require Import ZArith String Ascii List Lia.
From Stdlib Require Import DecimalString DecimalPos DecimalZ.
From stdpp Require Import base option list gmap strings.

Local Open Scope string_scope.
Local Open Scope list_scope.

(** ** Strings, as the JavaScript string methods the source calls *)

Module JsString.

Definition char (c : ascii) : string := String c "".

(** [s.startsWith(p)] *)
Definition startsWith (p s : string) : bool := String.prefix p s.

(** [s.substr(n)], the suffix from index [n] *)
Fixpoint substr (n : nat) (s : string) : string :=
  match n, s with
  | O, _ => s
  | S _, EmptyString => ""
  | S n', String _ s' => substr n' s'
  end.

(** [s.substring(a, b)]: from the smaller index up to the larger one *)
Definition substring (a b : nat) (s : string) : string :=
  String.substring (Nat.min a b) (Nat.max a b - Nat.min a b) s.

(** [l.join(sep)] on a list of strings *)
Definition join (sep : string) (l : list string) : string :=
  String.concat sep l.

(** The scan of [s.split(sep)] for a non-empty [sep]: [skip] counts the
    characters of a separator already matched that are still to be passed
    over, [cur] is the piece being collected. *)
Fixpoint split_scan (sep s : string) (skip : nat) (cur : string) : list string :=
  match s with
  | EmptyString => [cur]
  | String c s' =>
      match skip with
      | S k => split_scan sep s' k cur
      | O =>
          if String.prefix sep s
          then cur :: split_scan sep s' (String.length sep - 1) ""
          else split_scan sep s' 0 (cur +:+ char c)
      end
  end.

(** [s.split(sep)]: an empty separator splits into the single code units *)
Definition split (sep s : string) : list string :=
  match sep with
  | EmptyString => map char (list_ascii_of_string s)
  | _ => split_scan sep s 0 ""
  end.

(** [toLowerCase] on one code unit below 256: A-Z, and the Latin-1 capitals
    0xC0-0xDE without the multiplication sign 0xD7 *)
Definition lower_char (c : ascii) : ascii :=
  let n := nat_of_ascii c in
  if ((65 <=? n) && (n <=? 90))%nat then ascii_of_nat (n + 32)
  else if ((192 <=? n) && (n <=? 222) && negb (n =? 215))%nat then ascii_of_nat (n + 32)
  else c.

Fixpoint toLowerCase (s : string) : string :=
  match s with
  | EmptyString => ""
  | String c s' => String (lower_char c) (toLowerCase s')
  end.

(** [s.includes(c)] for a single character *)
Fixpoint contains_char (c : ascii) (s : string) : bool :=
  match s with
  | EmptyString => false
  | String d s' => Ascii.eqb c d || contains_char c s'
  end.

End JsString.

(** ** Values *)

#[local] Set Warnings "-register-all".

Inductive value : Type :=
| VUndefined
| VNull
| VBool (b : bool)
| VNum (n : Z)
| VStr (s : string)
| VArr (items : list value)
| VObj (entries : list (string * value))
| VNative (member : string).

(** The names every object answers to without having them as keys of its
    own: the members of [Object.prototype].  [VNative name] is the member of
    that name, a built-in function, or, for ["__proto__"], the prototype
    object itself. *)
Definition Object_prototype : list string :=
  [ "constructor"; "__defineGetter__"; "__defineSetter__"; "hasOwnProperty";
    "__lookupGetter__"; "__lookupSetter__"; "isPrototypeOf";
    "propertyIsEnumerable"; "toString"; "valueOf"; "__proto__";
    "toLocaleString" ].

Definition inherited (key : string) : bool :=
  existsb (String.eqb key) Object_prototype.

(** [typeof v === 'function'] *)
Definition callable (v : value) : bool :=
  match v with
  | VNative member => negb (String.eqb member "__proto__")
  | _ => false
  end.

(** The source text of a built-in function, as [Function.prototype.toString]
    gives it *)
Definition native_code (member : string) : string :=
  "function " +:+ (if String.eqb member "constructor" then "Object" else member)
  +:+ "() { [native code] }".

(** Decimal rendering of an integer-valued number *)
Definition string_of_Z (n : Z) : string :=
  NilZero.string_of_int (Z.to_int n).

(** No built-in at any depth: the value is JSON data, or [undefined] *)
Fixpoint native_free (v : value) : bool :=
  match v with
  | VArr items => forallb native_free items
  | VObj entries => forallb (fun kv => native_free (snd kv)) entries
  | VNative _ => false
  | _ => true
  end.

(** The text of a value, as template literals, property keys and [join]
    use it.  [renders] below tells for which values the conversion of the
    code gives this text. *)
Fixpoint ToString (v : value) : string :=
  match v with
  | VUndefined => "undefined"
  | VNull => "null"
  | VBool true => "true"
  | VBool false => "false"
  | VNum n => string_of_Z n
  | VStr s => s
  | VArr items =>
      String.concat ","
        (map (fun x => match x with
                       | VUndefined | VNull => ""
                       | _ => ToString x
                       end) items)
  | VObj _ => "[object Object]"
  | VNative member =>
      if String.eqb member "__proto__" then "[object Object]" else native_code member
  end.

(** The text an array element contributes to [Array.prototype.join] *)
Definition join_element (v : value) : string :=
  match v with
  | VUndefined | VNull => ""
  | _ => ToString v
  end.

(** The values whose conversion to a string is [ToString]: an integer
    prints in full as long as it is a safe integer; an array is the join of
    its elements; an object is [[object Object]] unless it has a key
    ["toString"] of its own, which the conversion would look at first. *)
Fixpoint renders (v : value) : bool :=
  match v with
  | VNum n => (Z.abs n <=? 9007199254740991)%Z
  | VArr items => forallb renders items
  | VObj entries => negb (existsb (fun kv => String.eqb (fst kv) "toString") entries)
  | _ => true
  end.

(** [if (v)] *)
Definition truthy (v : value) : bool :=
  match v with
  | VUndefined | VNull => false
  | VBool b => b
  | VNum n => negb (Z.eqb n 0)
  | VStr s => negb (String.eqb s "")
  | VArr _ | VObj _ | VNative _ => true
  end.

(** [v == null] *)
Definition is_nullish (v : value) : bool :=
  match v with
  | VUndefined | VNull => true
  | _ => false
  end.

(** [s === v] for a string [s] *)
Definition strict_eq_string (s : string) (v : value) : bool :=
  match v with
  | VStr t => String.eqb s t
  | _ => false
  end.

(** Own entries of an object, first match *)
Fixpoint assoc (key : string) (entries : list (string * value)) : option value :=
  match entries with
  | [] => None
  | (k, v) :: rest => if String.eqb k key then Some v else assoc key rest
  end.

(** [ret[key] = v] for a key other than ["__proto__"]: overwrite in place,
    or append a new entry *)
Fixpoint obj_set (key : string) (v : value) (entries : list (string * value))
  : list (string * value) :=
  match entries with
  | [] => [(key, v)]
  | (k, w) :: rest =>
      if String.eqb k key then (k, v) :: rest else (k, w) :: obj_set key v rest
  end.

(** The position an array-index key names, among the first [n] positions *)
Fixpoint index_of_key (key : string) (n : nat) : option nat :=
  match n with
  | O => None
  | S n' =>
      match index_of_key key n' with
      | Some i => Some i
      | None => if String.eqb (string_of_Z (Z.of_nat n')) key then Some n' else None
      end
  end.

(** Own property [key] of a value *)
Definition own_property (v : value) (key : string) : option value :=
  match v with
  | VArr items =>
      match index_of_key key (length items) with
      | Some i => items !! i
      | None => if String.eqb key "length"
                then Some (VNum (Z.of_nat (length items))) else None
      end
  | VStr s =>
      match index_of_key key (String.length s) with
      | Some i => (fun c => VStr (JsString.char c)) <$> String.get i s
      | None => if String.eqb key "length"
                then Some (VNum (Z.of_nat (String.length s))) else None
      end
  | VObj entries => assoc key entries
  | _ => None
  end.

(** ** Outcomes *)

(** [class CfnEvaluationException extends Error {}]: nothing but the message
    given to the constructor *)
Record CfnEvaluationException : Type := { message : string }.

Inductive result (A : Type) : Type :=
| Ok (a : A)
| Throw (e : CfnEvaluationException)
| TypeError
| Unmodelled
| OutOfFuel.
Arguments Ok {A} a.
Arguments Throw {A} e.
Arguments TypeError {A}.
Arguments Unmodelled {A}.
Arguments OutOfFuel {A}.

#[global] Instance result_ret : MRet result := fun _ a => Ok a.
#[global] Instance result_bind : MBind result := fun _ _ f m =>
  match m with
  | Ok a => f a
  | Throw e => Throw e
  | TypeError => TypeError
  | Unmodelled => Unmodelled
  | OutOfFuel => OutOfFuel
  end.
#[global] Instance result_fmap : FMap result := fun _ _ f m =>
  match m with
  | Ok a => Ok (f a)
  | Throw e => Throw e
  | TypeError => TypeError
  | Unmodelled => Unmodelled
  | OutOfFuel => OutOfFuel
  end.

(** A key that reads as a decimal numeral: no built-in prototype has a
    member of such a name *)
Definition is_numeral (key : string) : bool :=
  bool_decide (is_Some (NilZero.int_of_string key)).

(** The conversion of [v] to a string, where the model has it *)
Definition to_string (v : value) : result string :=
  if renders v then Ok (ToString v) else Unmodelled.

(** [items[n]] for a number [n] *)
Definition at_index (items : list value) (n : Z) : value :=
  if decide (0 <= n < Z.of_nat (length items))%Z
  then default VUndefined (items !! Z.to_nat n)
  else VUndefined.

(** [v[key]].  An object made by an object literal or read from JSON
    inherits from [Object.prototype]; what an array, a string, a number, a
    boolean or a built-in inherits under a name that is no numeral is left
    to [Unmodelled]. *)
Definition get_property (v key : value) : result value :=
  match v, key with
  | VUndefined, _ | VNull, _ => TypeError
  | VNative _, _ => Unmodelled
  | VArr items, VNum n => Ok (at_index items n)
  | VObj entries, _ =>
      k ← to_string key;
      match assoc k entries with
      | Some x => Ok x
      | None => Ok (if inherited k then VNative k else VUndefined)
      end
  | _, _ =>
      k ← to_string key;
      match own_property v k with
      | Some x => Ok x
      | None => if is_numeral k then Ok VUndefined else Unmodelled
      end
  end.

(** [key in v] *)
Definition has_property (key : string) (v : value) : result bool :=
  match v with
  | VObj entries => Ok (bool_decide (is_Some (assoc key entries)) || inherited key)
  | VArr _ =>
      if bool_decide (is_Some (own_property v key)) then Ok true
      else if is_numeral key then Ok false else Unmodelled
  | VNative _ => Unmodelled
  | _ => TypeError
  end.

(** The results of computations run one after the other, each awaited
    before the next starts *)
Fixpoint sequence {A B : Type} (f : A -> result B) (l : list A) : result (list B) :=
  match l with
  | [] => Ok []
  | x :: rest => y ← f x; ys ← sequence f rest; Ok (y :: ys)
  end.

(** [Promise.all(promises)]: the values when every promise resolves.  The
    promises run together and the first rejection in time wins, so where
    two of them fail differently the model does not say which failure is
    reported. *)
Fixpoint promise_all {A : Type} (promises : list (result A)) : result (list A) :=
  match promises with
  | [] => Ok []
  | promise :: rest =>
      match promise, promise_all rest with
      | OutOfFuel, _ | _, OutOfFuel => OutOfFuel
      | Unmodelled, _ | _, Unmodelled => Unmodelled
      | Ok a, Ok l => Ok (a :: l)
      | Ok _, Throw e => Throw e
      | Ok _, TypeError => TypeError
      | Throw e, Ok _ => Throw e
      | Throw e, Throw e' =>
          if String.eqb (message e) (message e') then Throw e else Unmodelled
      | Throw _, TypeError => Unmodelled
      | TypeError, Ok _ => TypeError
      | TypeError, TypeError => TypeError
      | TypeError, Throw _ => Unmodelled
      end
  end.

(** The messages of the exceptions the source throws, by the place that
    throws them *)
Definition UnsupportedIntrinsic (name : string) : CfnEvaluationException :=
  {| message := "CloudFormation function " +:+ name +:+ " is not supported" |}.

Definition UnresolvedReference (logicalId : string) : CfnEvaluationException :=
  {| message := "Parameter or resource '" +:+ logicalId
                +:+ "' could not be found for evaluation" |}.

Definition UnresolvedAttribute (attributeName logicalId : string) : CfnEvaluationException :=
  {| message := "Attribute '" +:+ attributeName +:+ "' of resource '" +:+ logicalId
                +:+ "' could not be found for evaluation" |}.

Definition report_it : string :=
  "Please report it at https://github.com/aws/aws-cdk/issues/new/choose".

Definition UnsupportedResourceKind (resourceType : string) : CfnEvaluationException :=
  {| message := "We don't support attributes of the '" +:+ resourceType
                +:+ "' resource. This is a CDK limitation. " +:+ report_it |}.

Definition UnsupportedAttribute (resourceType attribute : string) : CfnEvaluationException :=
  {| message := "We don't support the '" +:+ attribute +:+ "' attribute of the '"
                +:+ resourceType +:+ "' resource. This is a CDK limitation. "
                +:+ report_it |}.

(** ** The placeholder pattern and [asyncGlobalReplace] *)

Module Regex.

(** The capturing group and the closing brace of the pattern: the longest
    run of characters other than the closing brace, and then the brace;
    the run is the captured group *)
Fixpoint match_key (s : string) : option string :=
  match s with
  | EmptyString => None
  | String c s' =>
      if Ascii.eqb c "}"%char then Some "" else String c <$> match_key s'
  end.

(** A match of the whole pattern, dollar sign, opening brace, group and
    closing brace, that starts at the head of [s] *)
Definition match_here (s : string) : option string :=
  match s with
  | String "$"%char (String "{"%char t) => match_key t
  | _ => None
  end.

(** The leftmost match in [s]: its offset and its group *)
Fixpoint search (s : string) : option (nat * string) :=
  match match_here s with
  | Some key => Some (O, key)
  | None =>
      match s with
      | EmptyString => None
      | String _ s' => (fun m => (S (fst m), snd m)) <$> search s'
      end
  end.

(** What [regex.exec(str)] returns and leaves behind *)
Record regex_match : Type :=
  { index : nat;          (* match.index *)
    group1 : string;      (* match[1] *)
    lastIndex : nat }.    (* regex.lastIndex after the call *)

(** [regex.exec(str)] of the global pattern with [regex.lastIndex = from] *)
Definition exec (str : string) (from : nat) : option regex_match :=
  if (String.length str <? from)%nat then None
  else
    m ← search (JsString.substr from str);
    Some {| index := from + fst m;
            group1 := snd m;
            lastIndex := from + fst m + (3 + String.length (snd m)) |}.

End Regex.

(** The [while (true)] loop of [asyncGlobalReplace]; [from] is
    [regex.lastIndex], and each turn of the loop uses one unit of [fuel] *)
Fixpoint asyncGlobalReplace_loop (fuel : nat) (str : string)
    (cb : string -> result value) (from start : nat) (ret : list value)
  : result (list value) :=
  match fuel with
  | O => OutOfFuel
  | S fuel' =>
      match Regex.exec str from with
      | None => Ok (ret ++ [VStr (JsString.substr start str)])
      | Some m =>
          let ret1 := ret ++ [VStr (JsString.substring start (Regex.index m) str)] in
          v ← cb (Regex.group1 m);
          asyncGlobalReplace_loop fuel' str cb (Regex.lastIndex m) (Regex.lastIndex m)
            (ret1 ++ [v])
      end
  end.

(** [asyncGlobalReplace(str, regex, cb)] for the placeholder pattern.  A
    [str] that is not a string has no [substring] and no [substr]; where it
    holds a built-in, what its conversion and these reads find is left to
    [Unmodelled]. *)
Definition asyncGlobalReplace (str : value) (cb : string -> result value)
  : result value :=
  match str with
  | VStr s =>
      ret ← asyncGlobalReplace_loop (S (String.length s)) s cb 0 0 [];
      Ok (VStr (JsString.join "" (map join_element ret)))
  | VArr _ | VObj _ => if native_free str then TypeError else Unmodelled
  | _ => TypeError
  end.

(** ** The session: [EvaluateCloudFormationTemplate] *)

(** [AWS.CloudFormation.StackResourceSummary], the fields the source reads;
    [PhysicalResourceId] is optional in the SDK's type *)
Record StackResourceSummary : Type :=
  { LogicalResourceId : string;
    PhysicalResourceId : option string;
    ResourceType : string }.

Module Props.
(** [EvaluateCloudFormationTemplateProps]; [listStackResources] is what
    the collaborator's [listStackResources()] resolves to *)
Record t : Type :=
  { parameters : gmap string string;
    account : string;
    region : string;
    partition : string;
    urlSuffix : string;
    listStackResources : list StackResourceSummary }.
End Props.

Record EvaluateCloudFormationTemplate : Type :=
  { stackResources : list StackResourceSummary;
    context : gmap string string;
    account : string;
    region : string;
    partition : string }.

(** The four entries the object literal of the constructor writes first *)
Definition pseudo_parameters (props : Props.t) : gmap string string :=
  <["AWS::URLSuffix" := Props.urlSuffix props]>
    (<["AWS::Partition" := Props.partition props]>
      (<["AWS::Region" := Props.region props]>
        (<["AWS::AccountId" := Props.account props]> ∅))).

(** [{ ...target, ...source }]: every entry of [source] is written over
    [target] *)
Definition spread (target source : gmap string string) : gmap string string :=
  source ∪ target.

Definition constructor (props : Props.t) : EvaluateCloudFormationTemplate :=
  {| stackResources := Props.listStackResources props;
     context := spread (pseudo_parameters props) (Props.parameters props);
     account := Props.account props;
     region := Props.region props;
     partition := Props.partition props |}.

(** ** The formatter table *)

Record ArnParts : Type :=
  { arn_partition : string;
    arn_service : string;
    arn_region : string;
    arn_account : string;
    arn_resourceType : string;
    arn_resourceName : option string }.   (* [physicalId!] can be undefined *)

(** A value of type [string | undefined] inside a template literal *)
Definition interpolate (o : option string) : string := default "undefined" o.

Definition iamArnFmt (parts : ArnParts) : string :=
  "arn:" +:+ arn_partition parts +:+ ":" +:+ arn_service parts +:+ "::"
  +:+ arn_account parts +:+ ":" +:+ arn_resourceType parts +:+ "/"
  +:+ interpolate (arn_resourceName parts).

Definition s3ArnFmt (parts : ArnParts) : string :=
  "arn:" +:+ arn_partition parts +:+ ":" +:+ arn_service parts +:+ ":::"
  +:+ interpolate (arn_resourceName parts).

Definition stdColonResourceArnFmt (parts : ArnParts) : string :=
  "arn:" +:+ arn_partition parts +:+ ":" +:+ arn_service parts +:+ ":"
  +:+ arn_region parts +:+ ":" +:+ arn_account parts +:+ ":"
  +:+ arn_resourceType parts +:+ ":" +:+ interpolate (arn_resourceName parts).

Definition RESOURCE_TYPE_ATTRIBUTES_FORMATS
  : gmap string (gmap string (ArnParts -> string)) :=
  list_to_map
    [ ("AWS::IAM::Role", {[ "Arn" := iamArnFmt ]});
      ("AWS::IAM::User", {[ "Arn" := iamArnFmt ]});
      ("AWS::IAM::Group", {[ "Arn" := iamArnFmt ]});
      ("AWS::S3::Bucket", {[ "Arn" := s3ArnFmt ]});
      ("AWS::Lambda::Function", {[ "Arn" := stdColonResourceArnFmt ]}) ].

(** A value of type [string | undefined] *)
Definition optional (o : option string) : value :=
  match o with
  | Some s => VStr s
  | None => VUndefined
  end.

(** ** The resource resolver *)

Section Resolver.

Variable self : EvaluateCloudFormationTemplate.

(** [stackResources.find(sr => sr.LogicalResourceId === logicalId)] *)
Definition find_resource (logicalId : value) : option StackResourceSummary :=
  List.find (fun sr => strict_eq_string (LogicalResourceId sr) logicalId)
    (stackResources self).

Definition findPhysicalNameFor (logicalId : value) : option string :=
  sr ← find_resource logicalId; PhysicalResourceId sr.

(** [resource.ResourceType.split('::')[i].toLowerCase()] *)
Definition type_segment (i : nat) (resource : StackResourceSummary) : result string :=
  match JsString.split "::" (ResourceType resource) !! i with
  | Some seg => Ok (JsString.toLowerCase seg)
  | None => TypeError
  end.

Definition getServiceOfResource := type_segment 1.
Definition getResourceTypeArnPartOfResource := type_segment 2.

(** The two table reads see the members of [Object.prototype] as well: a
    resource type of such a name finds a built-in where the table of its
    formatters should be, and an attribute of such a name a built-in where
    the formatter should be.  What the code then does with the built-in is
    left to [Unmodelled]. *)
Definition formatResourceAttribute (resource : StackResourceSummary)
    (attribute : value) : result value :=
  let physicalId := PhysicalResourceId resource in
  if negb (truthy attribute) then Ok (optional physicalId)
  else
    match RESOURCE_TYPE_ATTRIBUTES_FORMATS !! ResourceType resource with
    | None =>
        if inherited (ResourceType resource) then Unmodelled
        else Throw (UnsupportedResourceKind (ResourceType resource))
    | Some resourceTypeFormats =>
        key ← to_string attribute;
        match resourceTypeFormats !! key with
        | None =>
            if inherited key then Unmodelled
            else Throw (UnsupportedAttribute (ResourceType resource) key)
        | Some attributeFmtFunc =>
            service ← getServiceOfResource resource;
            resourceTypeArnPart ← getResourceTypeArnPartOfResource resource;
            Ok (VStr (attributeFmtFunc
                        {| arn_partition := partition self;
                           arn_service := service;
                           arn_region := region self;
                           arn_account := account self;
                           arn_resourceType := resourceTypeArnPart;
                           arn_resourceName := physicalId |}))
        end
    end.

Definition findGetAttTarget (logicalId attribute : value) : result value :=
  match find_resource logicalId with
  | None => Ok VUndefined
  | Some foundResource => formatResourceAttribute foundResource attribute
  end.

(** [this.context[key]]: a parameter of that name, or else what the
    context object inherits under that name *)
Definition context_read (key : string) : value :=
  match context self !! key with
  | Some v => VStr v
  | None => if inherited key then VNative key else VUndefined
  end.

Definition findRefTarget (logicalId : value) : result value :=
  key ← to_string logicalId;
  let parameterTarget := context_read key in
  if truthy parameterTarget then Ok parameterTarget
  else findGetAttTarget logicalId VUndefined.

End Resolver.

(** ** The intrinsic functions: [class CfnIntrinsics] *)

(** [interface Intrinsic] *)
Record Intrinsic : Type := { name : string; args : value }.

(** What a property of a [CfnIntrinsics] instance can be: one of the six
    [async] methods, or another member of the instance *)
Inductive handler : Type :=
| Fn_Join_h | Fn_Split_h | Fn_Select_h | Ref_h | Fn_GetAtt_h | Fn_Sub_h.

Inductive member : Type :=
| Handler (h : handler)
| OtherMember (property : string).

(** Every property name a [CfnIntrinsics] instance answers to: the members
    of the class, then those inherited from [Object.prototype] *)
Definition members : list (string * member) :=
  [ ("constructor", OtherMember "constructor");
    ("evaluateIntrinsic", OtherMember "evaluateIntrinsic");
    ("Fn::Join", Handler Fn_Join_h);
    ("Fn::Split", Handler Fn_Split_h);
    ("Fn::Select", Handler Fn_Select_h);
    ("Ref", Handler Ref_h);
    ("Fn::GetAtt", Handler Fn_GetAtt_h);
    ("Fn::Sub", Handler Fn_Sub_h);
    ("__defineGetter__", OtherMember "__defineGetter__");
    ("__defineSetter__", OtherMember "__defineSetter__");
    ("hasOwnProperty", OtherMember "hasOwnProperty");
    ("__lookupGetter__", OtherMember "__lookupGetter__");
    ("__lookupSetter__", OtherMember "__lookupSetter__");
    ("isPrototypeOf", OtherMember "isPrototypeOf");
    ("propertyIsEnumerable", OtherMember "propertyIsEnumerable");
    ("toString", OtherMember "toString");
    ("valueOf", OtherMember "valueOf");
    ("__proto__", OtherMember "__proto__");
    ("toLocaleString", OtherMember "toLocaleString") ].

(** [(this as any)[name]] *)
Fixpoint lookup_member (name : string) (ms : list (string * member)) : option member :=
  match ms with
  | [] => None
  | (k, m) :: rest => if String.eqb k name then Some m else lookup_member name rest
  end.

(** The parameter at position [i] of a call made with [apply] *)
Definition parameter (i : nat) (argsAsArray : list value) : value :=
  default VUndefined (argsAsArray !! i).

(** Whether [v] has, under [name], a member of its own that can be called *)
Definition own_method (name : string) (v : value) : bool :=
  match own_property v name with
  | Some x => callable x
  | None => false
  end.

(** The call of the built-in [f] as a method of [this].  The one call the
    model has is [Object.prototype.toString] on an object, which gives
    [[object Object]] whatever its arguments. *)
Definition call_builtin (f this : value) : result value :=
  match f, this with
  | VNative member, VObj _ =>
      if String.eqb member "toString" then Ok (VStr "[object Object]")
      else Unmodelled
  | _, _ => Unmodelled
  end.

(** [evaluatedArgs.join(separator)]: the method of arrays.  No other value
    has a [join], unless it is an object with a built-in under that key. *)
Definition array_join (evaluatedArgs separator : value) : result value :=
  match evaluatedArgs with
  | VArr items =>
      sep ← match separator with
            | VUndefined => Ok ","
            | _ => to_string separator
            end;
      if forallb renders items
      then Ok (VStr (JsString.join sep (map join_element items)))
      else Unmodelled
  | _ =>
      if own_method "join" evaluatedArgs
      then call_builtin (default VUndefined (own_property evaluatedArgs "join"))
             evaluatedArgs
      else TypeError
  end.

(** [evaluatedArgs.split(separator)]: the method of strings, and as for
    [join] otherwise *)
Definition string_split (evaluatedArgs separator : value) : result value :=
  match evaluatedArgs with
  | VStr s =>
      pieces ← match separator with
               | VUndefined => Ok [s]
               | _ => sep ← to_string separator; Ok (JsString.split sep s)
               end;
      Ok (VArr (map VStr pieces))
  | _ =>
      if own_method "split" evaluatedArgs
      then call_builtin (default VUndefined (own_property evaluatedArgs "split"))
             evaluatedArgs
      else TypeError
  end.

Section CfnIntrinsics.

Variable self : EvaluateCloudFormationTemplate.

(** [self.evaluateCfnExpression], the evaluator the methods call back *)
Variable self_evaluateCfnExpression : value -> result value.

Definition Fn_Join (separator args : value) : result value :=
  evaluatedArgs ← self_evaluateCfnExpression args;
  array_join evaluatedArgs separator.

Definition Fn_Split (separator args : value) : result value :=
  evaluatedArgs ← self_evaluateCfnExpression args;
  string_split evaluatedArgs separator.

Definition Fn_Select (index args : value) : result value :=
  evaluatedArgs ← self_evaluateCfnExpression args;
  get_property evaluatedArgs index.

Definition Ref (logicalId : value) : result value :=
  refTarget ← findRefTarget self logicalId;
  if truthy refTarget then Ok refTarget
  else id ← to_string logicalId; Throw (UnresolvedReference id).

Definition Fn_GetAtt (logicalId attributeName : value) : result value :=
  attrValue ← findGetAttTarget self logicalId attributeName;
  if truthy attrValue then Ok attrValue
  else
    attribute ← to_string attributeName;
    id ← to_string logicalId;
    Throw (UnresolvedAttribute attribute id).

(** The callback [Fn::Sub] hands to [asyncGlobalReplace] *)
Definition Fn_Sub_callback (placeholders : value) (key : string) : result value :=
  present ← has_property key placeholders;
  if (present : bool) then get_property placeholders (VStr key)
  else
    let splitKey := JsString.split "." key in
    if (length splitKey =? 1)%nat then Ref (VStr key)
    else Fn_GetAtt (default VUndefined (VStr <$> splitKey !! 0%nat))
                   (VStr (JsString.join "." (drop 1 splitKey))).

(** [asyncGlobalReplace] is declared over callbacks that return strings; what
    the callback of [Fn::Sub] returns is joined as it is, and a value whose
    text the model does not have is left to [Unmodelled]. *)
Definition Fn_Sub (template explicitPlaceholders : value) : result value :=
  placeholders ←
    (if truthy explicitPlaceholders
     then self_evaluateCfnExpression explicitPlaceholders
     else Ok (VObj []));
  asyncGlobalReplace template
    (fun key =>
       v ← Fn_Sub_callback placeholders key;
       if renders v then Ok v else Unmodelled).

(** [intrinsicFunc.apply(this, argsAsArray)] *)
Definition apply_member (m : member) (argsAsArray : list value) : result value :=
  match m with
  | Handler Fn_Join_h => Fn_Join (parameter 0 argsAsArray) (parameter 1 argsAsArray)
  | Handler Fn_Split_h => Fn_Split (parameter 0 argsAsArray) (parameter 1 argsAsArray)
  | Handler Fn_Select_h => Fn_Select (parameter 0 argsAsArray) (parameter 1 argsAsArray)
  | Handler Ref_h => Ref (parameter 0 argsAsArray)
  | Handler Fn_GetAtt_h => Fn_GetAtt (parameter 0 argsAsArray) (parameter 1 argsAsArray)
  | Handler Fn_Sub_h => Fn_Sub (parameter 0 argsAsArray) (parameter 1 argsAsArray)
  | OtherMember _ => Unmodelled
  end.

Definition evaluateIntrinsic (intrinsic : Intrinsic) : result value :=
  match lookup_member (name intrinsic) members with
  | None => Throw (UnsupportedIntrinsic (name intrinsic))
  | Some intrinsicFunc =>
      let argsAsArray := match args intrinsic with
                         | VArr items => items
                         | other => [other]
                         end in
      apply_member intrinsicFunc argsAsArray
  end.

(** [parseIntrinsic(x)] for an object [x] with the given entries *)
Definition parseIntrinsic (x : list (string * value)) : option Intrinsic :=
  match map fst x with
  | [key] =>
      if JsString.startsWith "Fn::" key || String.eqb key "Ref"
      then Some {| name := key; args := default VUndefined (assoc key x) |}
      else None
  | _ => None
  end.

(** [ret[key] = v] on the object [ret] of the loop.  Under the key
    ["__proto__"] the assignment runs the setter that [ret] inherits: it
    adds no entry, ignores a [v] that is neither an object nor [null], and
    otherwise replaces the prototype of [ret], which is left to
    [Unmodelled]. *)
Definition assign (key : string) (v : value) (ret : list (string * value))
  : result (list (string * value)) :=
  if String.eqb key "__proto__"
  then match v with
       | VUndefined | VBool _ | VNum _ | VStr _ => Ok ret
       | VNull | VArr _ | VObj _ | VNative _ => Unmodelled
       end
  else Ok (obj_set key v ret).

(** The [for ... of Object.entries(cfnExpression)] loop *)
Fixpoint evaluate_entries (entries ret : list (string * value))
  : result (list (string * value)) :=
  match entries with
  | [] => Ok ret
  | (key, val) :: rest =>
      v ← self_evaluateCfnExpression val;
      ret' ← assign key v ret;
      evaluate_entries rest ret'
  end.

(** An object with a callable [then] is a thenable: the promise of an
    [async] function that returns it follows that [then] instead of
    resolving with the object *)
Definition thenable (ret : list (string * value)) : bool :=
  match assoc "then" ret with
  | Some v => callable v
  | None => false
  end.

(** The body of [evaluateCfnExpression].  Returning a thenable is left to
    [Unmodelled]: none of the built-ins that can stand under [then] ever
    calls the resolving functions it is given, so that promise never
    settles. *)
Definition evaluate_body (cfnExpression : value) : result value :=
  if is_nullish cfnExpression then Ok cfnExpression
  else
    match cfnExpression with
    | VArr items => VArr <$> promise_all (map self_evaluateCfnExpression items)
    | VObj entries =>
        match parseIntrinsic entries with
        | Some intrinsic => evaluateIntrinsic intrinsic
        | None =>
            ret ← evaluate_entries entries [];
            if thenable ret then Unmodelled else Ok (VObj ret)
        end
    | VNative member =>
        (* a built-in function is no object for [typeof]; the prototype
           object is one, and it has no enumerable key *)
        if callable cfnExpression then Ok cfnExpression else Ok (VObj [])
    | _ => Ok cfnExpression
    end.

End CfnIntrinsics.

(** ** [evaluateCfnExpression] *)

(** Nesting depth of an expression *)
Fixpoint depth (v : value) : nat :=
  match v with
  | VArr items => S (foldr (fun x d => Nat.max (depth x) d) O items)
  | VObj entries => S (foldr (fun kv d => Nat.max (depth (snd kv)) d) O entries)
  | _ => O
  end.

Fixpoint evaluate_fuel (self : EvaluateCloudFormationTemplate) (fuel : nat)
    (cfnExpression : value) : result value :=
  match fuel with
  | O => OutOfFuel
  | S fuel' => evaluate_body self (evaluate_fuel self fuel') cfnExpression
  end.

(** Every recursive call is on a strictly less deeply nested expression, so
    this is enough fuel (see [evaluateCfnExpression_unfold]) *)
Definition evaluateCfnExpression (self : EvaluateCloudFormationTemplate)
    (cfnExpression : value) : result value :=
  evaluate_fuel self (S (depth cfnExpression)) cfnExpression.

(** ** Induction on values *)

Section value_induction.

Variable P : value -> Prop.
Hypothesis P_undefined : P VUndefined.
Hypothesis P_null : P VNull.
Hypothesis P_bool : forall b, P (VBool b).
Hypothesis P_num : forall n, P (VNum n).
Hypothesis P_str : forall s, P (VStr s).
Hypothesis P_arr : forall items, Forall P items -> P (VArr items).
Hypothesis P_obj :
  forall entries, Forall (fun kv => P (snd kv)) entries -> P (VObj entries).
Hypothesis P_native : forall member, P (VNative member).

Fixpoint value_nested_ind (v : value) : P v :=
  match v with
  | VUndefined => P_undefined
  | VNull => P_null
  | VBool b => P_bool b
  | VNum n => P_num n
  | VStr s => P_str s
  | VArr items =>
      P_arr items
        ((fix go (l : list value) : Forall P l :=
            match l with
            | [] => @List.Forall_nil _ P
            | x :: r => @List.Forall_cons _ P x r (value_nested_ind x) (go r)
            end) items)
  | VObj entries =>
      P_obj entries
        ((fix go (l : list (string * value)) : Forall (fun kv => P (snd kv)) l :=
            match l with
            | [] => @List.Forall_nil _ _
            | kv :: r =>
                @List.Forall_cons _ (fun kv => P (snd kv)) kv r
                  (value_nested_ind (snd kv)) (go r)
            end) entries)
  | VNative member => P_native member
  end.

End value_induction.

(** * The vocabulary of the statements *)

(** ** Fuel *)

(** The model did not cut the evaluation short *)
Definition fuelled {A : Type} (r : result A) : Prop :=
  match r with
  | OutOfFuel => False
  | _ => True
  end.

(** ** Dispatch *)

(** The six intrinsic functions of [CfnIntrinsics] *)
Definition registered : list string :=
  ["Ref"; "Fn::Join"; "Fn::Split"; "Fn::Select"; "Fn::GetAtt"; "Fn::Sub"].

(** ** The parameter context and [Ref] *)

(** The value the constructor's object literal gives a pseudo-parameter *)
Definition pseudo_value (props : Props.t) (nm : string) : option string :=
  if decide (nm = "AWS::AccountId") then Some (Props.account props)
  else if decide (nm = "AWS::Region") then Some (Props.region props)
  else if decide (nm = "AWS::Partition") then Some (Props.partition props)
  else if decide (nm = "AWS::URLSuffix") then Some (Props.urlSuffix props)
  else None.

(** Resolution of a logical id against the inventory alone: the physical id
    of the first record of that logical name, when it is a non-empty
    string *)
Definition from_inventory self (logicalId : string) : result value :=
  match list_find (fun sr => LogicalResourceId sr = logicalId) (stackResources self) with
  | Some (_, sr) =>
      match PhysicalResourceId sr with
      | Some physicalId =>
          if decide (physicalId = "")
          then Throw (UnresolvedReference logicalId)
          else Ok (VStr physicalId)
      | None => Throw (UnresolvedReference logicalId)
      end
  | None => Throw (UnresolvedReference logicalId)
  end.

(** ** The formatter table and the exceptions *)

(** The kinds the formatter table has an entry for *)
Definition registered_kinds : list string :=
  ["AWS::IAM::Role"; "AWS::IAM::User"; "AWS::IAM::Group"; "AWS::S3::Bucket";
   "AWS::Lambda::Function"].

(** The fields of a [CfnEvaluationException] that a caller can inspect *)
Definition exception_fields (e : CfnEvaluationException) : list string :=
  [message e].

(** ** Expressions without intrinsic functions *)

(** An intrinsic node: a mapping with exactly one key, which is ["Ref"] or
    starts with ["Fn::"] *)
Definition is_intrinsic_node (entries : list (string * value)) : bool :=
  match entries with
  | [(key, _)] => String.eqb key "Ref" || JsString.startsWith "Fn::" key
  | _ => false
  end.

(** No intrinsic node at any depth *)
Fixpoint intrinsic_free (v : value) : bool :=
  match v with
  | VArr items => forallb intrinsic_free items
  | VObj entries =>
      negb (is_intrinsic_node entries)
      && forallb (fun kv => intrinsic_free (snd kv)) entries
  | _ => true
  end.

(** The keys of every mapping are pairwise distinct, as they are in an
    object *)
Fixpoint keys_unique (v : value) : bool :=
  match v with
  | VArr items => forallb keys_unique items
  | VObj entries =>
      bool_decide (NoDup (map fst entries))
      && forallb (fun kv => keys_unique (snd kv)) entries
  | _ => true
  end.

(** No key ["__proto__"] at any depth *)
Fixpoint proto_free (v : value) : bool :=
  match v with
  | VArr items => forallb proto_free items
  | VObj entries =>
      forallb (fun kv => negb (String.eqb (fst kv) "__proto__")
                         && proto_free (snd kv)) entries
  | _ => true
  end.

(** A plain value: no intrinsic node, distinct keys and no key
    ["__proto__"], at any depth *)
Definition plain (v : value) : Prop :=
  intrinsic_free v = true /\ keys_unique v = true /\ proto_free v = true.

(** ** Templates of [Fn::Sub] *)

(** A template written as its parts: each segment is a literal followed by
    the placeholder of a key, and [tail] is the text after the last
    placeholder *)
Fixpoint render (segments : list (string * string)) (tail : string) : string :=
  match segments with
  | [] => tail
  | (literal, key) :: rest =>
      literal +:+ "${" +:+ key +:+ "}" +:+ render rest tail
  end.

(** The two characters that open a placeholder occur in [s] *)
Fixpoint has_opening (s : string) : bool :=
  match s with
  | EmptyString => false
  | String c s' =>
      (Ascii.eqb c "$"
       && match s' with
          | String d _ => Ascii.eqb d "{"
          | EmptyString => false
          end)
      || has_opening s'
  end.

(** A placeholder starts at the head of [s]: the opening, and a closing
    brace somewhere after it *)
Definition opens_placeholder (s : string) : bool :=
  match s with
  | String "$" (String "{" t) => JsString.contains_char "}" t
  | _ => false
  end.

(** Some placeholder occurs in [s] *)
Fixpoint has_placeholder (s : string) : bool :=
  opens_placeholder s
  || match s with
     | EmptyString => false
     | String _ s' => has_placeholder s'
     end.

(** The parts of a template are the parts the scan finds: no literal
    contains an opening, no key a closing brace, and the tail no
    placeholder *)
Definition well_formed_parts (segments : list (string * string)) (tail : string) : Prop :=
  Forall (fun seg => has_opening (fst seg) = false
                     /\ JsString.contains_char "}" (snd seg) = false) segments
  /\ has_placeholder tail = false.

(** The part of a key before its first dot, and the part after it *)
Fixpoint before_dot (key : string) : string :=
  match key with
  | EmptyString => ""
  | String c k => if Ascii.eqb c "." then "" else String c (before_dot k)
  end.

Fixpoint after_dot (key : string) : string :=
  match key with
  | EmptyString => ""
  | String c k => if Ascii.eqb c "." then k else after_dot k
  end.

(** The three rules for one placeholder: the explicit placeholder of that
    key; else [Ref] of the key, when it has no dot; else [Fn::GetAtt] of the
    text before the first dot and the text after it *)
Definition resolve_placeholder self (placeholders : list (string * value))
    (key : string) : result value :=
  match assoc key placeholders with
  | Some v => Ok v
  | None =>
      if JsString.contains_char "." key
      then evaluateCfnExpression self
             (VObj [("Fn::GetAtt", VArr [VStr (before_dot key); VStr (after_dot key)])])
      else evaluateCfnExpression self (VObj [("Ref", VStr key)])
  end.

(** The literals and the substituted values, in the order of the template *)
Fixpoint weave (segments : list (string * string)) (values : list value)
    (tail : string) : string :=
  match segments, values with
  | (literal, _) :: rest, v :: vs => literal +:+ join_element v +:+ weave rest vs tail
  | _, _ => tail
  end.

(** The same, as the array [ret] of [asyncGlobalReplace] *)
Fixpoint pieces (segments : list (string * string)) (values : list value)
    (tail : string) : list value :=
  match segments, values with
  | (literal, _) :: rest, v :: vs => VStr literal :: v :: pieces rest vs tail
  | _, _ => [VStr tail]
  end.

(** ** Three sessions *)

(** A session whose caller bound the parameter ["Stage"] to the empty
    string, over an empty inventory *)
Definition session_with_empty_parameter : EvaluateCloudFormationTemplate :=
  constructor {| Props.parameters := {[ "Stage" := "" ]};
                 Props.account := "123456789012";
                 Props.region := "eu-west-1";
                 Props.partition := "aws";
                 Props.urlSuffix := "amazonaws.com";
                 Props.listStackResources := [] |}.

(** A session whose caller bound a parameter named ["toString"], over an
    empty inventory *)
Definition session_with_toString_parameter : EvaluateCloudFormationTemplate :=
  constructor {| Props.parameters := {[ "toString" := "abc" ]};
                 Props.account := "123456789012";
                 Props.region := "eu-west-1";
                 Props.partition := "aws";
                 Props.urlSuffix := "amazonaws.com";
                 Props.listStackResources := [] |}.

(** A session over an inventory with a role, a bucket, a function and a
    queue *)
Definition sample_session : EvaluateCloudFormationTemplate :=
  constructor
    {| Props.parameters := {[ "Foo" := "bar" ]};
       Props.account := "123456789012";
       Props.region := "us-east-1";
       Props.partition := "aws";
       Props.urlSuffix := "amazonaws.com";
       Props.listStackResources :=
         [ {| LogicalResourceId := "MyRole"; PhysicalResourceId := Some "role-1";
              ResourceType := "AWS::IAM::Role" |};
           {| LogicalResourceId := "MyBucket"; PhysicalResourceId := Some "my-bucket-1";
              ResourceType := "AWS::S3::Bucket" |};
           {| LogicalResourceId := "MyFunction"; PhysicalResourceId := Some "fn-1";
              ResourceType := "AWS::Lambda::Function" |};
           {| LogicalResourceId := "MyQueue"; PhysicalResourceId := Some "queue-1";
              ResourceType := "AWS::SQS::Queue" |} ] |}.

(** * Properties *)

(** ** Strings *)

Lemma length_append (a b : string) :
  String.length (a +:+ b) = (String.length a + String.length b)%nat.
Proof. induction a as [| c a IH]; simpl; [reflexivity | by rewrite IH]. Qed.

Lemma append_nil_r (a : string) : a +:+ "" = a.
Proof.
  induction a as [| c a IH]; [reflexivity |].
  change (String c (a +:+ "") = String c a). by rewrite IH.
Qed.

Lemma append_assoc (a b c : string) : (a +:+ b) +:+ c = a +:+ (b +:+ c).
Proof.
  induction a as [| d a IH]; [reflexivity |].
  change (String d ((a +:+ b) +:+ c) = String d (a +:+ (b +:+ c))). by rewrite IH.
Qed.

Lemma append_cancel_r (a b suffix : string) :
  a +:+ suffix = b +:+ suffix -> a = b.
Proof.
  revert b. induction a as [| c a IH]; intros [| d b] H.
  - reflexivity.
  - exfalso. apply (f_equal String.length) in H.
    rewrite !length_append in H. simpl in H. lia.
  - exfalso. apply (f_equal String.length) in H.
    rewrite !length_append in H. simpl in H. lia.
  - change (String c (a +:+ suffix) = String d (b +:+ suffix)) in H.
    injection H as -> H. f_equal. by apply IH.
Qed.

(** ** The evaluator is well defined *)

Lemma depth_item (x : value) (items : list value) :
  x ∈ items -> (depth x < depth (VArr items))%nat.
Proof.
  simpl. induction 1 as [x l | x y l _ IH]; simpl; lia.
Qed.

Lemma depth_entry (k : string) (x : value) (entries : list (string * value)) :
  (k, x) ∈ entries -> (depth x < depth (VObj entries))%nat.
Proof.
  simpl. induction entries as [| kv l IH]; intros H.
  - by apply elem_of_nil in H.
  - apply elem_of_cons in H as [<- | H]; simpl; [lia |].
    specialize (IH H). lia.
Qed.

Lemma sequence_ext {A B : Type} (f g : A -> result B) (l : list A) :
  (forall x, x ∈ l -> f x = g x) -> sequence f l = sequence g l.
Proof.
  induction l as [| x l IH]; intros H; simpl; [reflexivity |].
  rewrite (H x) by apply list_elem_of_here.
  rewrite IH; [reflexivity |].
  intros y Hy. apply H. by apply list_elem_of_further.
Qed.

Lemma evaluate_entries_ext (f g : value -> result value)
    (entries ret : list (string * value)) :
  (forall k x, (k, x) ∈ entries -> f x = g x) ->
  evaluate_entries f entries ret = evaluate_entries g entries ret.
Proof.
  revert ret. induction entries as [| [k x] l IH]; intros ret H; simpl; [reflexivity |].
  rewrite (H k x) by apply list_elem_of_here.
  destruct (g x) as [v | | | |]; simpl; try reflexivity.
  destruct (assign k v ret) as [ret' | | | |]; simpl; try reflexivity.
  apply IH. intros k' y Hy. apply (H k'). by apply list_elem_of_further.
Qed.

Lemma evaluateIntrinsic_ext self (f g : value -> result value) (i : Intrinsic) :
  (forall items, args i = VArr items -> f (parameter 1 items) = g (parameter 1 items)) ->
  f VUndefined = g VUndefined ->
  evaluateIntrinsic self f i = evaluateIntrinsic self g i.
Proof.
  intros Hitems Hundef. unfold evaluateIntrinsic.
  destruct (lookup_member (name i) members) as [m |]; [| reflexivity].
  assert (Hp : f (parameter 1 (match args i with VArr items => items | other => [other] end))
             = g (parameter 1 (match args i with VArr items => items | other => [other] end))).
  { destruct (args i); try exact Hundef. by apply Hitems. }
  destruct m as [[] | p]; simpl; try reflexivity;
    unfold Fn_Join, Fn_Split, Fn_Select, Fn_Sub; rewrite Hp; reflexivity.
Qed.

Lemma parseIntrinsic_Some (x : list (string * value)) (i : Intrinsic) :
  parseIntrinsic x = Some i ->
  x = [(name i, args i)] /\
  (JsString.startsWith "Fn::" (name i) = true \/ name i = "Ref").
Proof.
  unfold parseIntrinsic.
  destruct x as [| [k a] [| ? ?]]; simpl; try discriminate.
  rewrite String.eqb_refl. simpl.
  destruct (JsString.startsWith "Fn::" k) eqn:Hp; simpl.
  - intros [= <-]. simpl. auto.
  - destruct (String.eqb k "Ref") eqn:Hr; [| discriminate].
    apply String.eqb_eq in Hr. intros [= <-]. simpl. auto.
Qed.

Lemma depth_parameter (i : nat) (items : list value) :
  (depth (parameter i items) < depth (VArr items))%nat.
Proof.
  unfold parameter. destruct (items !! i) as [x |] eqn:Hx; simpl default.
  - apply depth_item. by eapply list_elem_of_lookup_2.
  - simpl. lia.
Qed.

Lemma evaluate_body_ext self (f g : value -> result value) (e : value) :
  (forall x, (depth x < depth e)%nat -> f x = g x) ->
  evaluate_body self f e = evaluate_body self g e.
Proof.
  intros H. destruct e as [| | | | | items | entries | member]; try reflexivity;
    unfold evaluate_body; cbn [is_nullish].
  - rewrite (map_ext_in f g); [reflexivity |].
    intros x Hx. apply H. apply depth_item. by apply list_elem_of_In.
  - destruct (parseIntrinsic entries) as [i |] eqn:Hi.
    + apply parseIntrinsic_Some in Hi as [-> _].
      apply evaluateIntrinsic_ext.
      * intros items Ha. apply H. rewrite Ha.
        pose proof (depth_parameter 1 items). simpl in *. lia.
      * apply H. simpl. lia.
    + rewrite (evaluate_entries_ext f g); [reflexivity |].
      intros k x Hx. apply H. by eapply depth_entry.
Qed.

Lemma evaluate_fuel_step self (n : nat) (e : value) :
  (depth e < n)%nat -> evaluate_fuel self n e = evaluate_fuel self (S n) e.
Proof.
  revert e. induction n as [| n IH]; intros e H; [lia |].
  change (evaluate_body self (evaluate_fuel self n) e
          = evaluate_body self (evaluate_fuel self (S n)) e).
  apply evaluate_body_ext. intros x Hx. apply IH. lia.
Qed.

Lemma evaluate_fuel_enough self (n : nat) (e : value) :
  (depth e < n)%nat -> evaluate_fuel self n e = evaluateCfnExpression self e.
Proof.
  induction n as [| n IH]; intros H; [lia |].
  destruct (decide (n = depth e)) as [-> | Hne]; [reflexivity |].
  rewrite <- evaluate_fuel_step by lia. apply IH. lia.
Qed.

(** The evaluator satisfies the recursive equation of the source: its body,
    with [self.evaluateCfnExpression] the evaluator itself. *)
Theorem evaluateCfnExpression_unfold self (e : value) :
  evaluateCfnExpression self e
  = evaluate_body self (evaluateCfnExpression self) e.
Proof.
  unfold evaluateCfnExpression at 1.
  change (evaluate_body self (evaluate_fuel self (depth e)) e
          = evaluate_body self (evaluateCfnExpression self) e).
  apply evaluate_body_ext. intros x Hx. by apply evaluate_fuel_enough.
Qed.

(** An object whose single key passes the test of [parseIntrinsic] is
    handed to [evaluateIntrinsic]. *)
Lemma evaluate_intrinsic_node self (nm : string) (a : value) :
  JsString.startsWith "Fn::" nm = true \/ nm = "Ref" ->
  evaluateCfnExpression self (VObj [(nm, a)])
  = evaluateIntrinsic self (evaluateCfnExpression self) {| name := nm; args := a |}.
Proof.
  intros Hgate. rewrite evaluateCfnExpression_unfold.
  unfold evaluate_body, parseIntrinsic. cbn [is_nullish map fst assoc].
  rewrite String.eqb_refl. cbn [default].
  destruct Hgate as [-> | ->]; [| rewrite orb_true_r]; reflexivity.
Qed.

(** ** Dispatch of intrinsic functions *)

(** Members of the instance that are no intrinsic function never pass the
    test of [parseIntrinsic]. *)
Lemma lookup_member_gate (nm : string) (p : string) :
  lookup_member nm members = Some (OtherMember p) ->
  JsString.startsWith "Fn::" nm = false /\ nm <> "Ref".
Proof.
  unfold members. cbn [lookup_member].
  repeat match goal with
         | |- context [String.eqb ?k nm] =>
             destruct (String.eqb_spec k nm) as [<- | _];
             [ vm_compute;
               first [ intros H; discriminate H
                     | intros _; split; [reflexivity | discriminate] ] | ]
         end.
  discriminate.
Qed.

Lemma lookup_member_registered (nm : string) (h : handler) :
  lookup_member nm members = Some (Handler h) -> nm ∈ registered.
Proof.
  unfold members, registered. cbn [lookup_member].
  repeat match goal with
         | |- context [String.eqb ?k nm] =>
             destruct (String.eqb_spec k nm) as [<- | _];
             [ cbn; first [ intros H; discriminate H | intros _; set_solver ] | ]
         end.
  discriminate.
Qed.

(** C4.  An object whose single key is ["Ref"] or starts with ["Fn::"], and
    is none of the six intrinsic functions, evaluates to the rejection
    "CloudFormation function <name> is not supported"; for such a key the
    member lookup of [evaluateIntrinsic] finds nothing, so no member of the
    instance other than the six functions is ever applied. *)
Theorem unsupported_intrinsic_rejected self (nm : string) (a : value) :
  JsString.startsWith "Fn::" nm = true \/ nm = "Ref" ->
  nm ∉ registered ->
  evaluateCfnExpression self (VObj [(nm, a)]) = Throw (UnsupportedIntrinsic nm)
  /\ lookup_member nm members = None.
Proof.
  intros Hgate Hout.
  assert (Hnone : lookup_member nm members = None).
  { destruct (lookup_member nm members) as [[h | p] |] eqn:Hl; [| | reflexivity].
    - apply lookup_member_registered in Hl. contradiction.
    - apply lookup_member_gate in Hl as [Hf Hr].
      destruct Hgate as [Hg | Hg]; congruence. }
  split; [| exact Hnone].
  rewrite evaluate_intrinsic_node by exact Hgate.
  unfold evaluateIntrinsic. cbn [name]. rewrite Hnone. reflexivity.
Qed.

Lemma unsupported_intrinsic_rejected_witness :
  evaluateCfnExpression
    (constructor {| Props.parameters := ∅; Props.account := "1";
                    Props.region := "r"; Props.partition := "aws";
                    Props.urlSuffix := "u"; Props.listStackResources := [] |})
    (VObj [("Fn::Base64", VStr "x")])
  = Throw (UnsupportedIntrinsic "Fn::Base64")
  /\ lookup_member "Fn::Base64" members = None.
Proof.
  apply unsupported_intrinsic_rejected.
  - left. reflexivity.
  - apply (bool_decide_unpack _). vm_compute. exact I.
Defined.

(** ** The parameter context *)

Lemma pseudo_parameters_lookup (props : Props.t) (nm : string) :
  pseudo_parameters props !! nm = pseudo_value props nm.
Proof.
  unfold pseudo_parameters, pseudo_value.
  repeat (rewrite lookup_insert; repeat case_decide; subst;
          try congruence; try discriminate).
  apply lookup_empty.
Qed.

(** C9.  The context of a session holds, under every name, the caller's
    parameter of that name when there is one, and otherwise the
    pseudo-parameter of that name: the four pseudo-parameters are written
    first and the caller's parameters over them.  The session is a value of
    the evaluator's functions, which return no session: nothing writes the
    context once [constructor] has built it. *)
Theorem context_built_from_pseudo_then_parameters (props : Props.t) (nm : string) :
  context (constructor props) !! nm
  = match Props.parameters props !! nm with
    | Some v => Some v
    | None => pseudo_value props nm
    end.
Proof.
  unfold constructor, spread. cbn [context].
  rewrite lookup_union, pseudo_parameters_lookup.
  destruct (Props.parameters props !! nm), (pseudo_value props nm); reflexivity.
Qed.

(** ** [Ref] *)

Lemma find_resource_first self (logicalId : string) :
  find_resource self (VStr logicalId)
  = snd <$> list_find (fun sr => LogicalResourceId sr = logicalId) (stackResources self).
Proof.
  unfold find_resource. induction (stackResources self) as [| sr l IH]; [reflexivity |].
  cbn [List.find list_find strict_eq_string] in *.
  destruct (String.eqb_spec (LogicalResourceId sr) logicalId) as [Heq | Hne].
  - rewrite decide_True by exact Heq. reflexivity.
  - rewrite decide_False by exact Hne. rewrite IH.
    destruct (list_find _ l) as [[i r] |]; reflexivity.
Qed.

Lemma truthy_VStr (s : string) :
  truthy (VStr s) = if decide (s = "") then false else true.
Proof.
  cbn [truthy].
  destruct (String.eqb_spec s "") as [-> | Hne]; case_decide; simpl; congruence.
Qed.

Lemma context_read_own self (key v : string) :
  context self !! key = Some v -> context_read self key = VStr v.
Proof. intros H. unfold context_read. by rewrite H. Qed.

Lemma context_read_absent self (key : string) :
  context self !! key = None -> inherited key = false ->
  context_read self key = VUndefined.
Proof. intros H Hi. unfold context_read. by rewrite H, Hi. Qed.

Lemma context_read_inherited self (key : string) :
  context self !! key = None -> inherited key = true ->
  context_read self key = VNative key.
Proof. intros H Hi. unfold context_read. by rewrite H, Hi. Qed.

Lemma lookup_Ref : lookup_member "Ref" members = Some (Handler Ref_h).
Proof. reflexivity. Qed.

(** [{"Ref": logicalId}] calls the method [Ref] on the argument, or on
    its first element when it is an array. *)
Lemma Ref_node_handler self (logicalId : value) :
  evaluateCfnExpression self (VObj [("Ref", logicalId)])
  = match logicalId with
    | VArr items => Ref self (parameter 0 items)
    | _ => Ref self logicalId
    end.
Proof.
  rewrite evaluate_intrinsic_node by (right; reflexivity).
  unfold evaluateIntrinsic. cbn [name args]. rewrite lookup_Ref.
  by destruct logicalId.
Qed.

(** [Ref] of a name whose context entry is missing or empty is resolved
    against the inventory. *)
Lemma Ref_inventory self (logicalId : string) :
  truthy (context_read self logicalId) = false ->
  Ref self (VStr logicalId) = from_inventory self logicalId.
Proof.
  intros Hctx. unfold Ref, findRefTarget, to_string. cbn [renders ToString mbind result_bind]. rewrite Hctx.
  unfold findGetAttTarget, from_inventory. rewrite find_resource_first.
  destruct (list_find _ (stackResources self)) as [[i sr] |]; [| reflexivity].
  cbn [fmap option_fmap option_map snd]. unfold formatResourceAttribute.
  cbn [truthy negb]. cbn [mbind result_bind].
  destruct (PhysicalResourceId sr) as [p |]; [| reflexivity].
  cbn [optional]. rewrite truthy_VStr. by destruct (decide (p = "")).
Qed.

(** [Ref] of a name with a non-empty context entry is that entry. *)
Lemma Ref_parameter self (logicalId v : string) :
  context self !! logicalId = Some v ->
  v <> "" ->
  Ref self (VStr logicalId) = Ok (VStr v).
Proof.
  intros Hctx Hv. unfold Ref, findRefTarget, to_string. cbn [renders ToString mbind result_bind].
  rewrite (context_read_own _ _ _ Hctx).
  rewrite truthy_VStr, decide_False by exact Hv.
  cbn [mbind result_bind]. by rewrite truthy_VStr, decide_False.
Qed.

(** [Ref] of a name the context has no entry for, and that every object
    answers to, is the built-in of that name. *)
Lemma Ref_inherited self (logicalId : string) :
  context self !! logicalId = None ->
  inherited logicalId = true ->
  Ref self (VStr logicalId) = Ok (VNative logicalId).
Proof.
  intros Hctx Hi. unfold Ref, findRefTarget, to_string. cbn [renders ToString mbind result_bind].
  by rewrite (context_read_inherited _ _ Hctx Hi).
Qed.

Lemma from_inventory_nonempty self (logicalId : string) :
  from_inventory self logicalId <> Ok (VStr "").
Proof.
  unfold from_inventory.
  destruct (list_find _ (stackResources self)) as [[i sr] |]; [| discriminate].
  destruct (PhysicalResourceId sr) as [p |]; [| discriminate].
  destruct (decide (p = "")); [discriminate | congruence].
Qed.

Lemma from_inventory_absent self (logicalId : string) :
  (forall sr, sr ∈ stackResources self -> LogicalResourceId sr <> logicalId) ->
  from_inventory self logicalId = Throw (UnresolvedReference logicalId).
Proof.
  intros Habsent. unfold from_inventory.
  destruct (list_find _ (stackResources self)) as [[i sr] |] eqn:Hfind; [| reflexivity].
  apply list_find_Some in Hfind as (Hi & Hname & _).
  exfalso. eapply Habsent; [| exact Hname]. by eapply list_elem_of_lookup_2.
Qed.

(** C2, as stated, fails: the context has an entry for ["Stage"], and
    [{"Ref": "Stage"}] does not return it but is rejected. *)
Lemma ref_of_empty_parameter_is_rejected :
  context session_with_empty_parameter !! "Stage" = Some ""
  /\ evaluateCfnExpression session_with_empty_parameter (VObj [("Ref", VStr "Stage")])
     = Throw (UnresolvedReference "Stage").
Proof. split; vm_compute; reflexivity. Qed.

(** C2, amended.  For a logical id that is not the name of a member of
    [Object.prototype], [{"Ref": logicalId}] returns the context entry of
    that name when there is one and it is not the empty string; otherwise it
    returns the physical id of the first record of the inventory whose
    logical name is the id, when that physical id is a non-empty string; in
    every other case it is rejected with "Parameter or resource '<logicalId>'
    could not be found for evaluation". *)
Theorem ref_resolves_parameter_then_inventory self (logicalId : string) :
  inherited logicalId = false ->
  evaluateCfnExpression self (VObj [("Ref", VStr logicalId)])
  = match context self !! logicalId with
    | Some v =>
        if decide (v = "") then
          match list_find (fun sr => LogicalResourceId sr = logicalId)
                  (stackResources self) with
          | Some (_, sr) =>
              match PhysicalResourceId sr with
              | Some physicalId =>
                  if decide (physicalId = "")
                  then Throw (UnresolvedReference logicalId)
                  else Ok (VStr physicalId)
              | None => Throw (UnresolvedReference logicalId)
              end
          | None => Throw (UnresolvedReference logicalId)
          end
        else Ok (VStr v)
    | None =>
        match list_find (fun sr => LogicalResourceId sr = logicalId)
                (stackResources self) with
        | Some (_, sr) =>
            match PhysicalResourceId sr with
            | Some physicalId =>
                if decide (physicalId = "")
                then Throw (UnresolvedReference logicalId)
                else Ok (VStr physicalId)
            | None => Throw (UnresolvedReference logicalId)
            end
        | None => Throw (UnresolvedReference logicalId)
        end
    end.
Proof.
  intros Hown. rewrite Ref_node_handler.
  destruct (context self !! logicalId) as [v |] eqn:Hctx.
  - destruct (decide (v = "")) as [-> | Hv].
    + rewrite Ref_inventory by (by rewrite (context_read_own _ _ _ Hctx)).
      reflexivity.
    + by apply Ref_parameter.
  - rewrite Ref_inventory by (by rewrite (context_read_absent _ _ Hctx Hown)).
    reflexivity.
Qed.

Lemma ref_resolves_parameter_then_inventory_witness :
  evaluateCfnExpression sample_session (VObj [("Ref", VStr "MyBucket")])
  = Ok (VStr "my-bucket-1").
Proof.
  rewrite (ref_resolves_parameter_then_inventory sample_session "MyBucket");
    [| reflexivity].
  vm_compute. reflexivity.
Defined.

(** C10.  When the context binds a name to the empty string, [{"Ref": name}]
    does not return the empty string: it resolves the name against the
    inventory as if the context had no such entry, and is rejected with
    "Parameter or resource '<name>' could not be found for evaluation" when
    no record of the inventory has that logical name. *)
Theorem ref_of_empty_parameter_falls_through self (nm : string) :
  context self !! nm = Some "" ->
  evaluateCfnExpression self (VObj [("Ref", VStr nm)]) = from_inventory self nm
  /\ evaluateCfnExpression self (VObj [("Ref", VStr nm)]) <> Ok (VStr "")
  /\ ((forall sr, sr ∈ stackResources self -> LogicalResourceId sr <> nm) ->
      evaluateCfnExpression self (VObj [("Ref", VStr nm)])
      = Throw (UnresolvedReference nm)).
Proof.
  intros Hempty. rewrite Ref_node_handler.
  rewrite Ref_inventory by (by rewrite (context_read_own _ _ _ Hempty)).
  split; [reflexivity |]. split.
  - apply from_inventory_nonempty.
  - apply from_inventory_absent.
Qed.

Lemma ref_of_empty_parameter_falls_through_witness :
  evaluateCfnExpression session_with_empty_parameter (VObj [("Ref", VStr "Stage")])
  = from_inventory session_with_empty_parameter "Stage"
  /\ evaluateCfnExpression session_with_empty_parameter (VObj [("Ref", VStr "Stage")])
     <> Ok (VStr "")
  /\ ((forall sr, sr ∈ stackResources session_with_empty_parameter ->
                  LogicalResourceId sr <> "Stage") ->
      evaluateCfnExpression session_with_empty_parameter (VObj [("Ref", VStr "Stage")])
      = Throw (UnresolvedReference "Stage")).
Proof.
  apply (ref_of_empty_parameter_falls_through session_with_empty_parameter "Stage").
  vm_compute. reflexivity.
Defined.

(** ** [Fn::Select] *)

Lemma string_of_Z_parse (n : Z) :
  NilZero.int_of_string (string_of_Z n) = Some (Z.to_int n).
Proof.
  unfold string_of_Z. apply NilZero.isi.
  - destruct n; simpl; try discriminate.
    intros [= H]. by apply DecimalPos.Unsigned.to_uint_nonnil in H.
  - destruct n; simpl; try discriminate.
    intros [= H]. by apply DecimalPos.Unsigned.to_uint_nonnil in H.
Qed.

Lemma string_of_Z_inj (a b : Z) : string_of_Z a = string_of_Z b -> a = b.
Proof.
  intros H. apply DecimalZ.to_int_inj.
  pose proof (string_of_Z_parse a) as Ha. rewrite H, string_of_Z_parse in Ha.
  congruence.
Qed.

Lemma string_of_Z_not_length (n : Z) : string_of_Z n <> "length".
Proof.
  intros H. pose proof (string_of_Z_parse n) as Hn. rewrite H in Hn.
  vm_compute in Hn. discriminate.
Qed.

(** A decimal key names a position exactly when the number is in range. *)
Lemma index_of_key_decimal (i : Z) (n : nat) :
  index_of_key (string_of_Z i) n
  = if decide (0 <= i < Z.of_nat n)%Z then Some (Z.to_nat i) else None.
Proof.
  induction n as [| n IH]; cbn [index_of_key].
  - rewrite decide_False by lia. reflexivity.
  - rewrite IH. destruct (decide (0 <= i < Z.of_nat n)%Z) as [Hin | Hout].
    + rewrite decide_True by lia. reflexivity.
    + destruct (String.eqb_spec (string_of_Z (Z.of_nat n)) (string_of_Z i)) as [Heq | Hne].
      * apply string_of_Z_inj in Heq. subst i.
        rewrite decide_True by lia. by rewrite Nat2Z.id.
      * rewrite decide_False; [reflexivity |].
        intros Hin. apply Hne. f_equal. lia.
Qed.

Lemma lookup_Select : lookup_member "Fn::Select" members = Some (Handler Fn_Select_h).
Proof. reflexivity. Qed.

(** An array read at a number *)
Lemma get_property_array (items : list value) (i : Z) :
  get_property (VArr items) (VNum i)
  = Ok (if decide (0 <= i < Z.of_nat (length items))%Z
        then default VUndefined (items !! Z.to_nat i)
        else VUndefined).
Proof. reflexivity. Qed.

(** The same read under the key that is the numeral of the number *)
Lemma get_property_array_numeral (items : list value) (i : Z) :
  get_property (VArr items) (VStr (string_of_Z i)) = Ok (at_index items i).
Proof.
  unfold get_property, to_string, own_property, at_index.
  cbn [renders ToString mbind result_bind].
  rewrite index_of_key_decimal.
  destruct (decide (0 <= i < Z.of_nat (length items))%Z) as [Hin | Hout].
  - destruct (lookup_lt_is_Some_2 items (Z.to_nat i)) as [x Hx]; [lia |].
    by rewrite Hx.
  - destruct (String.eqb_spec (string_of_Z i) "length") as [Heq | _].
    + by apply string_of_Z_not_length in Heq.
    + unfold is_numeral. rewrite string_of_Z_parse.
      by rewrite bool_decide_true by (by eexists).
Qed.

Lemma Select_node self (index listArg : value) :
  evaluateCfnExpression self (VObj [("Fn::Select", VArr [index; listArg])])
  = evaluatedArgs ← evaluateCfnExpression self listArg; get_property evaluatedArgs index.
Proof.
  rewrite evaluate_intrinsic_node by (left; reflexivity).
  unfold evaluateIntrinsic. cbn [name args]. rewrite lookup_Select. reflexivity.
Qed.

(** C3, as stated, fails: index 5 into a list of three elements is not
    rejected; evaluation succeeds with [undefined]. *)
Lemma select_out_of_range_is_not_rejected :
  evaluateCfnExpression session_with_empty_parameter
    (VObj [("Fn::Select", VArr [VNum 5; VArr [VStr "x"; VStr "y"; VStr "z"]])])
  = Ok VUndefined.
Proof. vm_compute. reflexivity. Qed.

(** C3, amended.  When the list argument of [Fn::Select] evaluates to a
    sequence of length n, an index inside [0, n) selects the element at that
    index, and an index outside [0, n) is not rejected: evaluation succeeds
    with [undefined]. *)
Theorem select_in_range_or_undefined self (index : Z) (listArg : value)
    (items : list value) :
  evaluateCfnExpression self listArg = Ok (VArr items) ->
  (forall x, (0 <= index)%Z -> items !! Z.to_nat index = Some x ->
     evaluateCfnExpression self (VObj [("Fn::Select", VArr [VNum index; listArg])])
     = Ok x)
  /\ (~ (0 <= index < Z.of_nat (length items))%Z ->
      evaluateCfnExpression self (VObj [("Fn::Select", VArr [VNum index; listArg])])
      = Ok VUndefined).
Proof.
  intros Hlist. rewrite Select_node, Hlist. cbn [mbind result_bind].
  rewrite get_property_array. split.
  - intros x Hpos Hx. pose proof (lookup_lt_Some _ _ _ Hx).
    rewrite decide_True by lia. by rewrite Hx.
  - intros Hout. by rewrite decide_False.
Qed.

Lemma select_in_range_or_undefined_witness :
  (forall x, (0 <= 1)%Z -> [VStr "x"; VStr "y"; VStr "z"] !! Z.to_nat 1 = Some x ->
     evaluateCfnExpression session_with_empty_parameter
       (VObj [("Fn::Select", VArr [VNum 1; VArr [VStr "x"; VStr "y"; VStr "z"]])])
     = Ok x)
  /\ (~ (0 <= 1 < Z.of_nat (length [VStr "x"; VStr "y"; VStr "z"]))%Z ->
      evaluateCfnExpression session_with_empty_parameter
        (VObj [("Fn::Select", VArr [VNum 1; VArr [VStr "x"; VStr "y"; VStr "z"]])])
      = Ok VUndefined).
Proof.
  apply (select_in_range_or_undefined session_with_empty_parameter 1
           (VArr [VStr "x"; VStr "y"; VStr "z"]) [VStr "x"; VStr "y"; VStr "z"]).
  vm_compute. reflexivity.
Defined.

(** ** [Fn::GetAtt] and the formatter table *)

Lemma formatter_table_dom (kind : string) :
  is_Some (RESOURCE_TYPE_ATTRIBUTES_FORMATS !! kind) <-> kind ∈ registered_kinds.
Proof.
  unfold RESOURCE_TYPE_ATTRIBUTES_FORMATS, registered_kinds. cbn [list_to_map foldr].
  cbn [uncurry fst snd]. rewrite !lookup_insert_is_Some', lookup_empty.
  rewrite !elem_of_cons, elem_of_nil, is_Some_alt.
  intuition congruence.
Qed.

Lemma lookup_GetAtt : lookup_member "Fn::GetAtt" members = Some (Handler Fn_GetAtt_h).
Proof. reflexivity. Qed.

Lemma GetAtt_node self (logicalId attributeName : value) :
  evaluateCfnExpression self (VObj [("Fn::GetAtt", VArr [logicalId; attributeName])])
  = Fn_GetAtt self logicalId attributeName.
Proof.
  rewrite evaluate_intrinsic_node by (left; reflexivity).
  unfold evaluateIntrinsic. cbn [name args]. rewrite lookup_GetAtt. reflexivity.
Qed.

(** [Fn::GetAtt] on the first record of a logical name, with an attribute
    that is not the empty string *)
Lemma GetAtt_found self (logicalId attribute : string) (i : nat)
    (sr : StackResourceSummary) :
  list_find (fun sr => LogicalResourceId sr = logicalId) (stackResources self)
  = Some (i, sr) ->
  attribute <> "" ->
  Fn_GetAtt self (VStr logicalId) (VStr attribute)
  = attrValue ← formatResourceAttribute self sr (VStr attribute);
    if truthy attrValue then Ok attrValue
    else Throw (UnresolvedAttribute attribute logicalId).
Proof.
  intros Hfind Hattr. unfold Fn_GetAtt, findGetAttTarget.
  rewrite find_resource_first, Hfind. reflexivity.
Qed.

Lemma findGetAttTarget_string self (logicalId attribute v : value) :
  findGetAttTarget self logicalId attribute = Ok v ->
  truthy v = true -> exists s, v = VStr s.
Proof.
  unfold findGetAttTarget, formatResourceAttribute.
  destruct (find_resource self logicalId) as [sr |]; [| by intros [= <-]].
  destruct (negb (truthy attribute)).
  { intros [= <-]. destruct (PhysicalResourceId sr); [eauto | discriminate]. }
  destruct (RESOURCE_TYPE_ATTRIBUTES_FORMATS !! ResourceType sr) as [formats |];
    [| by destruct (inherited _)].
  destruct (to_string attribute) as [key | | | |]; try discriminate.
  cbn [mbind result_bind].
  destruct (formats !! key) as [fmt |]; [| by destruct (inherited _)].
  destruct (getServiceOfResource sr); try discriminate. cbn [mbind result_bind].
  destruct (getResourceTypeArnPartOfResource sr); try discriminate.
  cbn [mbind result_bind]. intros [= <-]. eauto.
Qed.

(** What [Fn::GetAtt] returns is a string. *)
Lemma Fn_GetAtt_string self (logicalId attributeName v : value) :
  Fn_GetAtt self logicalId attributeName = Ok v -> exists s, v = VStr s.
Proof.
  unfold Fn_GetAtt.
  destruct (findGetAttTarget self logicalId attributeName) as [x | | | |] eqn:Hx;
    try discriminate.
  cbn [mbind result_bind]. destruct (truthy x) eqn:Ht.
  - intros [= <-]. by eapply findGetAttTarget_string.
  - destruct (to_string attributeName); try discriminate. cbn [mbind result_bind].
    destruct (to_string logicalId); discriminate.
Qed.

(** What [Ref] returns is a string, for a name that is not the name of a
    member of [Object.prototype]. *)
Lemma Ref_string self (logicalId : string) (v : value) :
  inherited logicalId = false ->
  Ref self (VStr logicalId) = Ok v -> exists s, v = VStr s.
Proof.
  intros Hown. unfold Ref, findRefTarget, to_string.
  cbn [renders ToString mbind result_bind].
  destruct (truthy (context_read self logicalId)) eqn:Hctx.
  - cbn [mbind result_bind]. rewrite Hctx. intros [= <-].
    unfold context_read in *. destruct (context self !! logicalId); [eauto |].
    rewrite Hown in Hctx. discriminate.
  - destruct (findGetAttTarget self (VStr logicalId) VUndefined) as [x | | | |] eqn:Hx;
      try discriminate.
    cbn [mbind result_bind]. destruct (truthy x) eqn:Ht; [| discriminate].
    intros [= <-]. by eapply findGetAttTarget_string.
Qed.

Ltac format_arn Hfind Hattr Hid Hkind :=
  rewrite GetAtt_node, (GetAtt_found _ _ _ _ _ Hfind Hattr);
  unfold formatResourceAttribute, getServiceOfResource,
    getResourceTypeArnPartOfResource, type_segment;
  rewrite Hkind, Hid; reflexivity.

(** C5.  [Fn::GetAtt] of ["Arn"] on a record with physical id [nm] yields,
    for an IAM role, user or group,
    arn:<partition>:iam::<account>:<role|user|group>/<nm>, without the
    region; for an S3 bucket arn:<partition>:s3:::<nm>, without account,
    region and kind tag; and for a Lambda function the full
    arn:<partition>:lambda:<region>:<account>:function:<nm>. *)
Theorem getatt_arn_shapes self (logicalId nm : string) (i : nat)
    (sr : StackResourceSummary) :
  list_find (fun sr => LogicalResourceId sr = logicalId) (stackResources self)
  = Some (i, sr) ->
  PhysicalResourceId sr = Some nm ->
  let arn := evaluateCfnExpression self
               (VObj [("Fn::GetAtt", VArr [VStr logicalId; VStr "Arn"])]) in
  (ResourceType sr = "AWS::IAM::Role" ->
   arn = Ok (VStr ("arn:" +:+ partition self +:+ ":iam::" +:+ account self
                   +:+ ":role/" +:+ nm)))
  /\ (ResourceType sr = "AWS::IAM::User" ->
      arn = Ok (VStr ("arn:" +:+ partition self +:+ ":iam::" +:+ account self
                      +:+ ":user/" +:+ nm)))
  /\ (ResourceType sr = "AWS::IAM::Group" ->
      arn = Ok (VStr ("arn:" +:+ partition self +:+ ":iam::" +:+ account self
                      +:+ ":group/" +:+ nm)))
  /\ (ResourceType sr = "AWS::S3::Bucket" ->
      arn = Ok (VStr ("arn:" +:+ partition self +:+ ":s3:::" +:+ nm)))
  /\ (ResourceType sr = "AWS::Lambda::Function" ->
      arn = Ok (VStr ("arn:" +:+ partition self +:+ ":lambda:" +:+ region self
                      +:+ ":" +:+ account self +:+ ":function:" +:+ nm))).
Proof.
  intros Hfind Hid arn. subst arn.
  assert (Hattr : "Arn" <> "") by discriminate.
  repeat split; intros Hkind; format_arn Hfind Hattr Hid Hkind.
Qed.

Lemma getatt_arn_shapes_witness :
  evaluateCfnExpression sample_session
    (VObj [("Fn::GetAtt", VArr [VStr "MyRole"; VStr "Arn"])])
  = Ok (VStr "arn:aws:iam::123456789012:role/role-1").
Proof.
  refine (proj1 (getatt_arn_shapes sample_session "MyRole" "role-1" 0
                   {| LogicalResourceId := "MyRole"; PhysicalResourceId := Some "role-1";
                      ResourceType := "AWS::IAM::Role" |} _ _) _).
  - vm_compute. reflexivity.
  - reflexivity.
  - reflexivity.
Defined.

(** C7, as stated, fails: the rejection for the queue's kind has no field
    that holds the kind; the kind is only a part of the message text. *)
Lemma unsupported_kind_has_no_field :
  exists e,
    evaluateCfnExpression sample_session
      (VObj [("Fn::GetAtt", VArr [VStr "MyQueue"; VStr "Arn"])]) = Throw e
    /\ "AWS::SQS::Queue" ∉ exception_fields e.
Proof.
  exists (UnsupportedResourceKind "AWS::SQS::Queue"). split.
  - vm_compute. reflexivity.
  - apply (bool_decide_unpack _). vm_compute. exact I.
Qed.

(** C7, amended.  [Fn::GetAtt] of a non-empty attribute on a record whose
    kind is absent from the formatter table, and is not the name of a
    member of [Object.prototype], is rejected with a
    [CfnEvaluationException] whose message is "We don't support attributes
    of the '<kind>' resource. This is a CDK limitation. Please report it at
    https://github.com/aws/aws-cdk/issues/new/choose"; the exception has no
    other field, and the kind is determined by the message. *)
Theorem unsupported_kind_rejected self (logicalId attribute : string) (i : nat)
    (sr : StackResourceSummary) :
  list_find (fun sr => LogicalResourceId sr = logicalId) (stackResources self)
  = Some (i, sr) ->
  attribute <> "" ->
  RESOURCE_TYPE_ATTRIBUTES_FORMATS !! ResourceType sr = None ->
  inherited (ResourceType sr) = false ->
  evaluateCfnExpression self
    (VObj [("Fn::GetAtt", VArr [VStr logicalId; VStr attribute])])
  = Throw {| message := "We don't support attributes of the '" +:+ ResourceType sr
                        +:+ "' resource. This is a CDK limitation. "
                        +:+ "Please report it at https://github.com/aws/aws-cdk/issues/new/choose" |}
  /\ (forall kind,
        UnsupportedResourceKind kind = UnsupportedResourceKind (ResourceType sr) ->
        kind = ResourceType sr).
Proof.
  intros Hfind Hattr Habsent Hown. split.
  - rewrite GetAtt_node, (GetAtt_found _ _ _ _ _ Hfind Hattr).
    unfold formatResourceAttribute.
    assert (Htruthy : truthy (VStr attribute) = true).
    { cbn [truthy]. by destruct (String.eqb_spec attribute ""). }
    rewrite Htruthy, Habsent, Hown. reflexivity.
  - intros kind [= H].
    apply (append_cancel_r kind (ResourceType sr)
             ("' resource. This is a CDK limitation. " +:+ report_it)).
    exact H.
Qed.

Lemma unsupported_kind_rejected_witness :
  evaluateCfnExpression sample_session
    (VObj [("Fn::GetAtt", VArr [VStr "MyQueue"; VStr "Arn"])])
  = Throw (UnsupportedResourceKind "AWS::SQS::Queue").
Proof.
  refine (proj1 (unsupported_kind_rejected sample_session "MyQueue" "Arn" 3
                   {| LogicalResourceId := "MyQueue"; PhysicalResourceId := Some "queue-1";
                      ResourceType := "AWS::SQS::Queue" |} _ _ _ _)).
  - vm_compute. reflexivity.
  - discriminate.
  - vm_compute. reflexivity.
  - reflexivity.
Defined.

(** ** [Fn::Split] and [Fn::Join] *)

Lemma prefix_substr (p s : string) :
  String.prefix p s = true ->
  s = p +:+ JsString.substr (String.length p) s
  /\ (String.length p <= String.length s)%nat.
Proof.
  revert s. induction p as [| c p IH]; intros s H.
  - split; [reflexivity | simpl; lia].
  - destruct s as [| d s]; [discriminate |]. cbn [String.prefix] in H.
    destruct (Ascii.ascii_dec c d) as [-> | _]; [| discriminate].
    destruct (IH s H) as [Hs Hlen]. split.
    + change (String d s = String d (p +:+ JsString.substr (String.length p) s)).
      by rewrite <- Hs.
    + simpl. lia.
Qed.

Lemma split_scan_nonempty (sep s : string) (skip : nat) (cur : string) :
  JsString.split_scan sep s skip cur <> [].
Proof.
  revert skip cur. induction s as [| c s IH]; intros skip cur; cbn [JsString.split_scan].
  - discriminate.
  - destruct skip; [| apply IH]. destruct (String.prefix sep (String c s)); [discriminate | apply IH].
Qed.

Lemma join_cons (sep x : string) (l : list string) :
  l <> [] -> JsString.join sep (x :: l) = x +:+ sep +:+ JsString.join sep l.
Proof. destruct l; [congruence | reflexivity]. Qed.

(** Joining the pieces of a scan gives back what was scanned. *)
Lemma join_split_scan (sep s : string) (skip : nat) (cur : string) :
  sep <> "" ->
  (skip <= String.length s)%nat ->
  JsString.join sep (JsString.split_scan sep s skip cur)
  = cur +:+ JsString.substr skip s.
Proof.
  intros Hsep. revert skip cur.
  induction s as [| c s IH]; intros skip cur Hskip; cbn [JsString.split_scan].
  - destruct skip; [| simpl in Hskip; lia].
    cbn [JsString.substr]. rewrite append_nil_r. reflexivity.
  - destruct skip as [| k].
    + destruct (String.prefix sep (String c s)) eqn:Hp.
      * rewrite join_cons by apply split_scan_nonempty.
        destruct sep as [| d sep']; [congruence |].
        apply prefix_substr in Hp as [Hs Hlen].
        cbn [String.length JsString.substr] in Hs, Hlen.
        change (String c s = String d (sep' +:+ JsString.substr (String.length sep') s)) in Hs.
        injection Hs as -> Hs.
        cbn [String.length].
        replace (S (String.length sep') - 1)%nat with (String.length sep') by lia.
        rewrite IH by lia.
        cbn [JsString.substr]. rewrite Hs at 2.
        reflexivity.
      * rewrite IH by lia. cbn [JsString.substr].
        rewrite append_assoc. reflexivity.
    + rewrite IH by (simpl in Hskip; lia). reflexivity.
Qed.

Lemma join_split (sep s : string) :
  sep <> "" -> JsString.join sep (JsString.split sep s) = s.
Proof.
  intros Hsep. unfold JsString.split.
  destruct sep as [| d sep']; [congruence |].
  rewrite join_split_scan by (try discriminate; lia). reflexivity.
Qed.

Lemma map_join_element_strings (l : list string) :
  map join_element (map VStr l) = l.
Proof. induction l as [| x l IH]; [reflexivity |]. simpl. by rewrite IH. Qed.

Lemma renders_strings (l : list string) : forallb renders (map VStr l) = true.
Proof. induction l as [| x l IH]; [reflexivity | exact IH]. Qed.

Lemma evaluate_string self (s : string) :
  evaluateCfnExpression self (VStr s) = Ok (VStr s).
Proof. reflexivity. Qed.

Lemma Split_node self (separator arg : value) :
  evaluateCfnExpression self (VObj [("Fn::Split", VArr [separator; arg])])
  = evaluatedArgs ← evaluateCfnExpression self arg; string_split evaluatedArgs separator.
Proof.
  rewrite evaluate_intrinsic_node by (left; reflexivity). reflexivity.
Qed.

Lemma Join_node self (separator arg : value) :
  evaluateCfnExpression self (VObj [("Fn::Join", VArr [separator; arg])])
  = evaluatedArgs ← evaluateCfnExpression self arg; array_join evaluatedArgs separator.
Proof.
  rewrite evaluate_intrinsic_node by (left; reflexivity). reflexivity.
Qed.

(** C8.  For every string [s] and every non-empty separator [sep],
    [Fn::Join] with [sep] over [Fn::Split] with [sep] of [s] evaluates to
    [s]. *)
Theorem join_of_split_is_identity self (sep s : string) :
  sep <> "" ->
  evaluateCfnExpression self
    (VObj [("Fn::Join",
            VArr [VStr sep; VObj [("Fn::Split", VArr [VStr sep; VStr s])]])])
  = Ok (VStr s).
Proof.
  intros Hsep. rewrite Join_node, Split_node, evaluate_string.
  unfold string_split, to_string. cbn [renders ToString mbind result_bind].
  unfold array_join, to_string. cbn [renders ToString mbind result_bind].
  rewrite renders_strings, map_join_element_strings, join_split by exact Hsep.
  reflexivity.
Qed.

Lemma join_of_split_is_identity_witness :
  evaluateCfnExpression sample_session
    (VObj [("Fn::Join",
            VArr [VStr ", "; VObj [("Fn::Split", VArr [VStr ", "; VStr "a, b,, c, "])]])])
  = Ok (VStr "a, b,, c, ").
Proof.
  apply (join_of_split_is_identity sample_session ", " "a, b,, c, ").
  discriminate.
Defined.

(** ** Expressions without intrinsic functions *)

Lemma parseIntrinsic_plain (entries : list (string * value)) :
  is_intrinsic_node entries = false -> parseIntrinsic entries = None.
Proof.
  unfold is_intrinsic_node, parseIntrinsic.
  destruct entries as [| [k a] [| ? ?]]; try reflexivity.
  cbn [map fst]. rewrite orb_comm. by intros ->.
Qed.

Lemma obj_set_fresh (key : string) (v : value) (ret : list (string * value)) :
  key ∉ map fst ret -> obj_set key v ret = ret ++ [(key, v)].
Proof.
  induction ret as [| [k w] ret IH]; intros Hfresh; [reflexivity |].
  cbn [obj_set map fst] in *. apply not_elem_of_cons in Hfresh as [Hne Hfresh].
  destruct (String.eqb_spec k key) as [-> | _]; [congruence |].
  by rewrite IH.
Qed.

(** Under a key other than ["__proto__"] the assignment writes the entry. *)
Lemma assign_key (key : string) (v : value) (ret : list (string * value)) :
  key <> "__proto__" -> assign key v ret = Ok (obj_set key v ret).
Proof.
  intros Hkey. unfold assign.
  by destruct (String.eqb_spec key "__proto__").
Qed.

Lemma evaluate_entries_identity (f : value -> result value)
    (entries ret : list (string * value)) :
  (forall k x, (k, x) ∈ entries -> f x = Ok x) ->
  NoDup (map fst (ret ++ entries)) ->
  "__proto__" ∉ map fst entries ->
  evaluate_entries f entries ret = Ok (ret ++ entries).
Proof.
  revert ret. induction entries as [| [k x] l IH]; intros ret Hid Hnodup Hproto.
  - by rewrite app_nil_r.
  - cbn [evaluate_entries]. rewrite (Hid k x) by apply list_elem_of_here.
    cbn [mbind result_bind]. cbn [map fst] in Hproto.
    apply not_elem_of_cons in Hproto as [Hk Hproto].
    rewrite assign_key by congruence. cbn [mbind result_bind].
    rewrite obj_set_fresh.
    + rewrite IH.
      * by rewrite <- app_assoc.
      * intros k' y Hy. apply (Hid k'). by apply list_elem_of_further.
      * by rewrite <- app_assoc.
      * exact Hproto.
    + rewrite map_app in Hnodup. apply NoDup_app in Hnodup as (_ & Hdisj & _).
      intros Hin. apply (Hdisj k Hin). cbn [map fst]. apply list_elem_of_here.
Qed.

Lemma promise_all_identity {A : Type} (f : A -> result A) (l : list A) :
  Forall (fun x => f x = Ok x) l -> promise_all (map f l) = Ok l.
Proof.
  induction 1 as [| x l Hx _ IH]; [reflexivity |].
  cbn [map promise_all]. by rewrite Hx, IH.
Qed.

Lemma proto_free_keys (entries : list (string * value)) :
  proto_free (VObj entries) = true -> "__proto__" ∉ map fst entries.
Proof.
  cbn [proto_free]. induction entries as [| [k x] l IH]; cbn [forallb map fst].
  - intros _. apply not_elem_of_nil.
  - intros H. apply andb_true_iff in H as [H Hl].
    apply andb_true_iff in H as [Hk _]. apply negb_true_iff in Hk.
    apply not_elem_of_cons. split; [| by apply IH].
    intros <-. by rewrite String.eqb_refl in Hk.
Qed.

(** Data holds nothing callable, so an object of data is no thenable. *)
Lemma thenable_data (ret : list (string * value)) :
  native_free (VObj ret) = true -> thenable ret = false.
Proof.
  cbn [native_free]. unfold thenable.
  induction ret as [| [k x] l IH]; cbn [forallb assoc snd]; [reflexivity |].
  intros H. apply andb_true_iff in H as [Hx Hl].
  destruct (String.eqb k "then"); [| by apply IH].
  by destruct x.
Qed.

(** C6.  The structural identity fails on a mapping with the key
    ["__proto__"]: the mapping below has no intrinsic node and its keys are
    distinct, and it evaluates to a mapping that has lost that key. *)
Theorem proto_key_is_dropped :
  intrinsic_free (VObj [("__proto__", VNum 1); ("b", VNum 2)]) = true
  /\ keys_unique (VObj [("__proto__", VNum 1); ("b", VNum 2)]) = true
  /\ evaluateCfnExpression sample_session (VObj [("__proto__", VNum 1); ("b", VNum 2)])
     = Ok (VObj [("b", VNum 2)]).
Proof. repeat split; vm_compute; reflexivity. Qed.

(** X20.  Data with no intrinsic node and no key ["__proto__"] at any depth
    evaluates to itself: null and scalars unchanged, sequences with the same
    elements in the same order, plain objects with the same keys, in the
    same order, and recursively evaluated values. *)
Theorem evaluate_intrinsic_free_is_identity self (e : value) :
  intrinsic_free e = true ->
  keys_unique e = true ->
  proto_free e = true ->
  native_free e = true ->
  evaluateCfnExpression self e = Ok e.
Proof.
  induction e as [| | b | n | s | items IH | entries IH | member] using value_nested_ind;
    intros Hfree Huniq Hproto Hdata; try reflexivity; try discriminate.
  - rewrite evaluateCfnExpression_unfold. unfold evaluate_body. cbn [is_nullish].
    cbn [intrinsic_free keys_unique proto_free native_free] in Hfree, Huniq, Hproto, Hdata.
    rewrite promise_all_identity; [reflexivity |].
    rewrite forallb_forall in Hfree, Huniq, Hproto, Hdata.
    rewrite Forall_forall in *. intros x Hx.
    apply IH; [exact Hx | | | |];
      [apply Hfree | apply Huniq | apply Hproto | apply Hdata]; by apply list_elem_of_In.
  - rewrite evaluateCfnExpression_unfold. unfold evaluate_body. cbn [is_nullish].
    pose proof (proto_free_keys _ Hproto) as Hkeys.
    pose proof (thenable_data _ Hdata) as Hthen.
    cbn [intrinsic_free keys_unique proto_free native_free] in Hfree, Huniq, Hproto, Hdata.
    apply andb_true_iff in Hfree as [Hnode Hfree], Huniq as [Hnodup Huniq].
    apply negb_true_iff in Hnode. apply bool_decide_eq_true in Hnodup.
    rewrite parseIntrinsic_plain by exact Hnode.
    rewrite evaluate_entries_identity; [| | exact Hnodup | exact Hkeys].
    + cbn [mbind result_bind app]. by rewrite Hthen.
    + rewrite forallb_forall in Hfree, Huniq, Hproto, Hdata.
      rewrite Forall_forall in IH. intros k x Hx.
      apply (IH (k, x) Hx);
        [apply (Hfree (k, x)) | apply (Huniq (k, x)) | | apply (Hdata (k, x))];
        try (by apply list_elem_of_In).
      assert (Hp := Hproto (k, x)). cbn [fst snd] in Hp.
      apply list_elem_of_In in Hx. specialize (Hp Hx).
      by apply andb_true_iff in Hp as [_ Hp].
Qed.

Lemma evaluate_intrinsic_free_is_identity_witness :
  evaluateCfnExpression sample_session
    (VObj [("Name", VStr "x");
           ("Tags", VArr [VNull; VBool true; VNum 3; VObj [("Fn", VStr "y"); ("Ref", VNull)]])])
  = Ok (VObj [("Name", VStr "x");
              ("Tags", VArr [VNull; VBool true; VNum 3; VObj [("Fn", VStr "y"); ("Ref", VNull)]])]).
Proof.
  apply evaluate_intrinsic_free_is_identity; vm_compute; reflexivity.
Defined.

(** ** [Fn::Sub] *)

Lemma match_key_found (key rest : string) :
  JsString.contains_char "}" key = false ->
  Regex.match_key (key +:+ "}" +:+ rest) = Some key.
Proof.
  induction key as [| c key IH]; intros Hkey; [reflexivity |].
  cbn [JsString.contains_char] in Hkey. apply orb_false_iff in Hkey as [Hc Hkey].
  change (Regex.match_key (String c (key +:+ "}" +:+ rest)) = Some (String c key)).
  cbn [Regex.match_key]. rewrite Ascii.eqb_sym, Hc, IH by exact Hkey. reflexivity.
Qed.

Lemma match_key_none (s : string) :
  JsString.contains_char "}" s = false -> Regex.match_key s = None.
Proof.
  induction s as [| c s IH]; intros H; [reflexivity |].
  cbn [JsString.contains_char] in H. apply orb_false_iff in H as [Hc H].
  cbn [Regex.match_key]. rewrite Ascii.eqb_sym, Hc, IH by exact H. reflexivity.
Qed.

Lemma match_here_none (s : string) :
  opens_placeholder s = false -> Regex.match_here s = None.
Proof.
  unfold opens_placeholder, Regex.match_here. intros H.
  repeat match goal with
         | |- context [match ?x with _ => _ end] => destruct x; try reflexivity
         end.
  by apply match_key_none.
Qed.

Lemma search_none (s : string) :
  has_placeholder s = false -> Regex.search s = None.
Proof.
  induction s as [| c s IH]; intros H.
  - reflexivity.
  - cbn [has_placeholder] in H. apply orb_false_iff in H as [Hhere H].
    cbn [Regex.search]. rewrite match_here_none by exact Hhere.
    by rewrite IH.
Qed.

Lemma search_literal (literal key rest : string) :
  has_opening literal = false ->
  JsString.contains_char "}" key = false ->
  Regex.search (literal +:+ "${" +:+ key +:+ "}" +:+ rest)
  = Some (String.length literal, key).
Proof.
  intros Hlit Hkey. induction literal as [| c literal IH].
  - change (Regex.search (String "$" (String "{" (key +:+ "}" +:+ rest))) = Some (O, key)).
    cbn [Regex.search Regex.match_here]. by rewrite match_key_found.
  - cbn [has_opening] in Hlit. apply orb_false_iff in Hlit as [Hhead Hlit].
    change (Regex.search (String c (literal +:+ "${" +:+ key +:+ "}" +:+ rest))
            = Some (S (String.length literal), key)).
    cbn [Regex.search]. rewrite IH by exact Hlit.
    assert (Hhere : Regex.match_here
                      (String c (literal +:+ "${" +:+ key +:+ "}" +:+ rest)) = None).
    { unfold Regex.match_here.
      destruct (Ascii.eqb_spec c "$") as [-> | Hc].
      - cbn [andb] in Hhead. destruct literal as [| d literal].
        + reflexivity.
        + change (String d literal +:+ "${" +:+ key +:+ "}" +:+ rest)
            with (String d (literal +:+ "${" +:+ key +:+ "}" +:+ rest)).
          destruct (Ascii.eqb_spec d "{") as [-> | Hd]; [discriminate |].
          destruct d as [[] [] [] [] [] [] [] []]; try reflexivity. congruence.
      - destruct c as [[] [] [] [] [] [] [] []]; try reflexivity. congruence. }
    rewrite Hhere. reflexivity.
Qed.

Lemma substr_append (a b : string) :
  JsString.substr (String.length a) (a +:+ b) = b.
Proof. induction a as [| c a IH]; [by destruct b | exact IH]. Qed.

Lemma substring_whole (a b : string) :
  String.substring 0 (String.length a) (a +:+ b) = a.
Proof.
  induction a as [| c a IH]; [by destruct b |].
  change (String c (String.substring 0 (String.length a) (a +:+ b)) = String c a).
  by rewrite IH.
Qed.

Lemma substring_append (a b : string) (n : nat) :
  String.substring (String.length a) n (a +:+ b) = String.substring 0 n b.
Proof. induction a as [| c a IH]; [reflexivity | exact IH]. Qed.

Lemma render_length (segments : list (string * string)) (tail : string) :
  (length segments <= String.length (render segments tail))%nat.
Proof.
  induction segments as [| [literal key] rest IH]; cbn [render length]; [lia |].
  rewrite !length_append. simpl. lia.
Qed.

(** The loop over a template given by its parts: the callback is called on
    the keys from left to right, and [ret] receives the literals and the
    values in that order. *)
Lemma asyncGlobalReplace_loop_parts (cb : string -> result value)
    (segments : list (string * string)) (tail : string) :
  well_formed_parts segments tail ->
  forall (fuel : nat) (done : string) (ret : list value),
    (length segments < fuel)%nat ->
    asyncGlobalReplace_loop fuel (done +:+ render segments tail) cb
      (String.length done) (String.length done) ret
    = values ← sequence cb (map snd segments);
      Ok (ret ++ pieces segments values tail).
Proof.
  intros [Hsegs Htail].
  induction Hsegs as [| [literal key] rest [Hlit Hkey] _ IH];
    intros fuel done ret Hfuel; (destruct fuel as [| fuel]; [simpl in Hfuel; lia |]).
  - cbn [render asyncGlobalReplace_loop]. unfold Regex.exec.
    rewrite (proj2 (Nat.ltb_ge _ _)) by (rewrite length_append; lia).
    rewrite substr_append, search_none by exact Htail.
    reflexivity.
  - cbn [render asyncGlobalReplace_loop fst snd] in *. unfold Regex.exec.
    rewrite (proj2 (Nat.ltb_ge _ _)) by (rewrite length_append; lia).
    rewrite substr_append, search_literal by assumption.
    cbn [mbind option_bind fst snd Regex.index Regex.group1 Regex.lastIndex].
    cbn [map snd sequence].
    destruct (cb key) as [v | e | | |]; try reflexivity.
    cbn [mbind result_bind].
    assert (Hstr : done +:+ literal +:+ "${" +:+ key +:+ "}" +:+ render rest tail
                   = (done +:+ literal +:+ "${" +:+ key +:+ "}") +:+ render rest tail).
    { rewrite !append_assoc. reflexivity. }
    assert (Hlen : (String.length done + String.length literal + (3 + String.length key))%nat
                   = String.length (done +:+ literal +:+ "${" +:+ key +:+ "}")).
    { rewrite !length_append. simpl. lia. }
    unfold JsString.substring.
    replace (Nat.min (String.length done) (String.length done + String.length literal))
      with (String.length done) by lia.
    replace (Nat.max (String.length done) (String.length done + String.length literal)
             - String.length done)%nat
      with (String.length literal) by lia.
    rewrite substring_append, substring_whole.
    rewrite Hstr, Hlen, IH by (simpl in Hfuel; lia).
    destruct (sequence cb (map snd rest)) as [vs | e | | |]; try reflexivity.
    cbn [mbind result_bind pieces]. by rewrite <- !app_assoc.
Qed.

Lemma join_pieces (segments : list (string * string)) (values : list value)
    (tail : string) :
  JsString.join "" (map join_element (pieces segments values tail))
  = weave segments values tail.
Proof.
  revert values. induction segments as [| [literal key] rest IH]; intros values.
  - reflexivity.
  - destruct values as [| v vs]; [reflexivity |].
    cbn [pieces weave map]. 
    assert (Hne : forall l : list value, map join_element (pieces rest vs tail) <> []).
    { intros _. destruct rest as [| [] ?], vs; discriminate. }
    rewrite join_cons by discriminate.
    rewrite join_cons by (by apply Hne).
    rewrite IH. reflexivity.
Qed.

(** Splitting a key at its dots: the first piece is the text before the
    first dot, and the other pieces are those of the text after it. *)
Lemma split_scan_dot (key cur : string) :
  JsString.split_scan "." key 0 cur
  = (cur +:+ before_dot key)
      :: (if JsString.contains_char "." key
          then JsString.split_scan "." (after_dot key) 0 ""
          else []).
Proof.
  revert cur. induction key as [| c key IH]; intros cur.
  - cbn. by rewrite append_nil_r.
  - cbn [JsString.split_scan String.prefix before_dot after_dot JsString.contains_char].
    rewrite (Ascii.eqb_sym c ".").
    destruct (Ascii.ascii_dec "." c) as [<- | Hne].
    + cbn. destruct key; by rewrite append_nil_r.
    + destruct (Ascii.eqb_spec "." c) as [Heq | _]; [congruence |].
      rewrite IH. cbn [orb]. rewrite append_assoc. reflexivity.
Qed.

(** The callback of [Fn::Sub] follows the three rules on a key that is an
    explicit placeholder, or that is not the name of a member of
    [Object.prototype]. *)
Lemma Fn_Sub_callback_rules self (placeholders : list (string * value)) (key : string) :
  (assoc key placeholders = None -> inherited key = false) ->
  Fn_Sub_callback self (VObj placeholders) key
  = resolve_placeholder self placeholders key.
Proof.
  intros Hown.
  unfold Fn_Sub_callback, resolve_placeholder, has_property, get_property, to_string.
  cbn [renders ToString mbind result_bind].
  destruct (assoc key placeholders) as [v |] eqn:Hassoc.
  - rewrite bool_decide_true by eauto. reflexivity.
  - rewrite bool_decide_false by (by intros [? ?]).
    rewrite (Hown eq_refl). cbn [orb].
    unfold JsString.split. rewrite split_scan_dot.
    destruct (JsString.contains_char "." key) eqn:Hdot.
    + pose proof (split_scan_nonempty "." (after_dot key) 0 "") as Hne.
      destruct (JsString.split_scan "." (after_dot key) 0 "") as [| p ps] eqn:Hsplit;
        [congruence |].
      cbn [length Nat.eqb lookup list_lookup fmap option_fmap option_map default drop].
      rewrite <- Hsplit.
      change (JsString.split_scan "." (after_dot key) 0 "")
        with (JsString.split "." (after_dot key)).
      rewrite join_split by discriminate.
      by rewrite GetAtt_node.
    + cbn [length Nat.eqb]. by rewrite Ref_node_handler.
Qed.

Lemma lookup_Sub : lookup_member "Fn::Sub" members = Some (Handler Fn_Sub_h).
Proof. reflexivity. Qed.

Lemma Sub_node self (template : value) (rest : list value) :
  evaluateCfnExpression self (VObj [("Fn::Sub", VArr (template :: rest))])
  = Fn_Sub self (evaluateCfnExpression self) template (parameter 0 rest).
Proof.
  rewrite evaluate_intrinsic_node by (left; reflexivity).
  unfold evaluateIntrinsic. cbn [name args]. rewrite lookup_Sub. reflexivity.
Qed.

Lemma Sub_node_string self (template : string) :
  evaluateCfnExpression self (VObj [("Fn::Sub", VStr template)])
  = Fn_Sub self (evaluateCfnExpression self) (VStr template) VUndefined.
Proof.
  rewrite evaluate_intrinsic_node by (left; reflexivity).
  unfold evaluateIntrinsic. cbn [name args]. rewrite lookup_Sub. reflexivity.
Qed.

(** [Fn::Sub] on a template given by its parts, once the explicit
    placeholders are evaluated *)
(** What a placeholder resolves to is a string, when the explicit
    placeholders are strings. *)
Lemma resolve_placeholder_string self (placeholders : list (string * value))
    (key : string) (v : value) :
  Forall (fun kv => exists s, snd kv = VStr s) placeholders ->
  (assoc key placeholders = None -> inherited key = false) ->
  resolve_placeholder self placeholders key = Ok v ->
  exists s, v = VStr s.
Proof.
  intros Hstrings Hown. unfold resolve_placeholder.
  destruct (assoc key placeholders) as [x |] eqn:Hassoc.
  - intros [= <-]. rewrite Forall_forall in Hstrings.
    apply (Hstrings (key, x)). apply list_elem_of_In.
    clear -Hassoc. induction placeholders as [| [k w] l IH]; [discriminate |].
    cbn [assoc] in Hassoc. destruct (String.eqb_spec k key) as [-> | _].
    + injection Hassoc as ->. by left.
    + right. by apply IH.
  - destruct (JsString.contains_char "." key).
    + rewrite GetAtt_node. apply Fn_GetAtt_string.
    + rewrite Ref_node_handler. apply Ref_string. by apply Hown.
Qed.

(** A string passes the guard on the callback's value. *)
Lemma guard_string (r : result value) :
  (forall v, r = Ok v -> exists s, v = VStr s) ->
  (v ← r; if renders v then Ok v else Unmodelled) = r.
Proof.
  intros Hr. destruct r as [v | | | |]; try reflexivity.
  by destruct (Hr v eq_refl) as [s ->].
Qed.

Lemma Fn_Sub_parts self (segments : list (string * string)) (tail : string)
    (placeholders : list (string * value)) :
  well_formed_parts segments tail ->
  Forall (fun kv => exists s, snd kv = VStr s) placeholders ->
  Forall (fun seg => assoc (snd seg) placeholders = None -> inherited (snd seg) = false)
    segments ->
  asyncGlobalReplace (VStr (render segments tail))
    (fun key =>
       v ← Fn_Sub_callback self (VObj placeholders) key;
       if renders v then Ok v else Unmodelled)
  = values ← sequence (resolve_placeholder self placeholders) (map snd segments);
    Ok (VStr (weave segments values tail)).
Proof.
  intros Hwf Hstrings Hkeys. unfold asyncGlobalReplace.
  pose proof (asyncGlobalReplace_loop_parts
                (fun key =>
                   v ← Fn_Sub_callback self (VObj placeholders) key;
                   if renders v then Ok v else Unmodelled)
                segments tail Hwf (S (String.length (render segments tail))) "" [])
    as Hloop.
  change ("" +:+ render segments tail) with (render segments tail) in Hloop.
  change (String.length "") with O in Hloop. rewrite Hloop.
  - rewrite (sequence_ext _ (resolve_placeholder self placeholders)).
    2:{ intros key Hkey.
        apply list_elem_of_fmap in Hkey as (seg & -> & Hseg).
        rewrite Forall_forall in Hkeys. specialize (Hkeys seg Hseg).
        rewrite Fn_Sub_callback_rules by exact Hkeys.
        apply guard_string. intros v. by apply resolve_placeholder_string. }
    destruct (sequence (resolve_placeholder self placeholders) (map snd segments))
      as [vs | e | | |]; try reflexivity.
    cbn [mbind result_bind app]. by rewrite join_pieces.
  - pose proof (render_length segments tail). lia.
Qed.

(** [Fn::Sub] on a template given by its parts, in both shapes of the
    node *)
Lemma Sub_node_parts self (segments : list (string * string)) (tail : string)
    (explicitPlaceholders : value) (placeholders : list (string * value)) :
  well_formed_parts segments tail ->
  Forall (fun kv => exists s, snd kv = VStr s) placeholders ->
  Forall (fun seg => assoc (snd seg) placeholders = None -> inherited (snd seg) = false)
    segments ->
  (truthy explicitPlaceholders = true ->
   evaluateCfnExpression self explicitPlaceholders = Ok (VObj placeholders)) ->
  (truthy explicitPlaceholders = false -> placeholders = []) ->
  let resolved :=
    values ← sequence (resolve_placeholder self placeholders) (map snd segments);
    Ok (VStr (weave segments values tail)) in
  evaluateCfnExpression self
    (VObj [("Fn::Sub", VArr [VStr (render segments tail); explicitPlaceholders])])
  = resolved
  /\ (explicitPlaceholders = VUndefined ->
      evaluateCfnExpression self (VObj [("Fn::Sub", VStr (render segments tail))])
      = resolved).
Proof.
  intros Hwf Hstrings Hkeys Hgiven Habsent resolved.
  assert (Hsub : Fn_Sub self (evaluateCfnExpression self)
                   (VStr (render segments tail)) explicitPlaceholders = resolved).
  { subst resolved. unfold Fn_Sub. destruct (truthy explicitPlaceholders) eqn:Ht.
    - rewrite (Hgiven eq_refl). cbn [mbind result_bind].
      by apply Fn_Sub_parts.
    - specialize (Habsent eq_refl). subst placeholders. cbn [mbind result_bind].
      by apply Fn_Sub_parts. }
  split.
  - by rewrite Sub_node.
  - intros ->. by rewrite Sub_node_string.
Qed.

(** Every template has parts. *)

Lemma cut_at_brace (t : string) :
  JsString.contains_char "}" t = true ->
  exists key rest,
    t = key +:+ "}" +:+ rest /\ JsString.contains_char "}" key = false.
Proof.
  induction t as [| c t IH]; intros H; [discriminate |].
  cbn [JsString.contains_char] in H.
  destruct (Ascii.eqb_spec "}" c) as [<- | Hne].
  - by exists "", t.
  - destruct (IH H) as (key & rest & -> & Hkey).
    exists (String c key), rest. split; [reflexivity |].
    cbn [JsString.contains_char]. rewrite Hkey.
    by destruct (Ascii.eqb_spec "}" c).
Qed.

Lemma contains_char_append (c : ascii) (a b : string) :
  JsString.contains_char c (a +:+ b)
  = JsString.contains_char c a || JsString.contains_char c b.
Proof.
  induction a as [| d a IH]; [reflexivity |].
  change (JsString.contains_char c (String d (a +:+ b))
          = JsString.contains_char c (String d a) || JsString.contains_char c b).
  cbn [JsString.contains_char]. rewrite IH. by rewrite orb_assoc.
Qed.

Lemma first_placeholder (s : string) :
  has_placeholder s = true ->
  exists literal key rest,
    s = literal +:+ "${" +:+ key +:+ "}" +:+ rest
    /\ has_opening literal = false
    /\ JsString.contains_char "}" key = false.
Proof.
  induction s as [| c s IH]; intros H; [discriminate |].
  destruct (opens_placeholder (String c s)) eqn:Hhere.
  - unfold opens_placeholder in Hhere.
    destruct (Ascii.eqb_spec c "$") as [-> | Hc];
      [| destruct c as [[] [] [] [] [] [] [] []]; try discriminate; congruence].
    destruct s as [| d t]; [discriminate |].
    destruct (Ascii.eqb_spec d "{") as [-> | Hd];
      [| destruct d as [[] [] [] [] [] [] [] []]; try discriminate; congruence].
    destruct (cut_at_brace t Hhere) as (key & rest & -> & Hkey).
    by exists "", key, rest.
  - cbn [has_placeholder] in H. rewrite Hhere in H. cbn [orb] in H.
    destruct (IH H) as (literal & key & rest & -> & Hlit & Hkey).
    exists (String c literal), key, rest. split; [reflexivity |]. split; [| exact Hkey].
    cbn [has_opening]. rewrite Hlit, orb_false_r.
    destruct (Ascii.eqb_spec c "$") as [-> | Hc]; [| reflexivity].
    destruct literal as [| d literal]; [reflexivity |].
    destruct (Ascii.eqb_spec d "{") as [-> | Hd]; [| reflexivity].
    exfalso.
    change (opens_placeholder
              (String "$" (String "{" (literal +:+ "${" +:+ key +:+ "}" +:+ rest)))
            = false) in Hhere.
    cbn [opens_placeholder] in Hhere.
    rewrite !contains_char_append in Hhere. cbn in Hhere.
    rewrite !orb_true_r in Hhere. discriminate.
Qed.

Lemma template_has_parts (template : string) :
  exists segments tail,
    template = render segments tail /\ well_formed_parts segments tail.
Proof.
  remember (String.length template) as n eqn:Hn.
  revert template Hn. induction n as [n IH] using lt_wf_ind. intros template Hn.
  destruct (has_placeholder template) eqn:Hp.
  - destruct (first_placeholder template Hp) as (literal & key & rest & Ht & Hlit & Hkey).
    destruct (IH (String.length rest)) with (template := rest)
      as (segments & tail & Hrest & Hsegs & Htail); [| reflexivity |].
    + subst n template. rewrite !length_append. simpl. lia.
    + exists ((literal, key) :: segments), tail. split.
      * cbn [render]. by rewrite <- Hrest.
      * split; [| exact Htail]. by constructor.
  - exists [], template. split; [reflexivity |]. by split.
Qed.

(** C1.  [Fn::Sub] does not treat every key that is absent from the
    explicit placeholders as [Ref] of the key.  In a session with a
    parameter named ["toString"], [Ref] of that name is the parameter's
    value; the placeholder of that name, with no explicit placeholders or
    with an empty mapping of them, is replaced by the text of the built-in
    function of that name. *)
Theorem sub_of_inherited_key_is_not_ref :
  evaluateCfnExpression session_with_toString_parameter
    (VObj [("Ref", VStr "toString")])
  = Ok (VStr "abc")
  /\ evaluateCfnExpression session_with_toString_parameter
       (VObj [("Fn::Sub", VStr "${toString}")])
     = Ok (VStr "function toString() { [native code] }")
  /\ evaluateCfnExpression session_with_toString_parameter
       (VObj [("Fn::Sub", VArr [VStr "${toString}"; VObj []])])
     = Ok (VStr "function toString() { [native code] }").
Proof. repeat split; vm_compute; reflexivity. Qed.

(** X19.  Every template is a sequence of literals and placeholders
    followed by a tail.  When the explicit placeholders, if given, evaluate
    to a mapping [placeholders] of strings (with none given, [placeholders]
    is empty), and every key of the template is an explicit placeholder or
    is not the name of a member of [Object.prototype], [Fn::Sub] resolves the
    keys from left to right, each by the three rules (the explicit
    placeholder of that key; else [Ref] of a key without dot; else
    [Fn::GetAtt] of the text before the first dot and all the text after
    it), fails with the first failure among them, and otherwise returns the
    literals and the substituted values concatenated in template order. *)
Theorem sub_resolves_placeholders_in_order self
    (explicitPlaceholders : value) (placeholders : list (string * value)) :
  (truthy explicitPlaceholders = true ->
   evaluateCfnExpression self explicitPlaceholders = Ok (VObj placeholders)) ->
  (truthy explicitPlaceholders = false -> placeholders = []) ->
  Forall (fun kv => exists s, snd kv = VStr s) placeholders ->
  (forall template : string,
     exists segments tail,
       template = render segments tail /\ well_formed_parts segments tail)
  /\ (forall segments tail,
        well_formed_parts segments tail ->
        Forall (fun seg => assoc (snd seg) placeholders = None ->
                           inherited (snd seg) = false) segments ->
        let resolved :=
          values ← sequence (resolve_placeholder self placeholders) (map snd segments);
          Ok (VStr (weave segments values tail)) in
        evaluateCfnExpression self
          (VObj [("Fn::Sub", VArr [VStr (render segments tail); explicitPlaceholders])])
        = resolved
        /\ (explicitPlaceholders = VUndefined ->
            evaluateCfnExpression self (VObj [("Fn::Sub", VStr (render segments tail))])
            = resolved)).
Proof.
  intros Hgiven Habsent Hstrings. split.
  - apply template_has_parts.
  - intros segments tail Hwf Hkeys. by apply Sub_node_parts.
Qed.

Lemma sub_resolves_placeholders_in_order_witness :
  evaluateCfnExpression sample_session
    (VObj [("Fn::Sub",
            VArr [VStr "arn:${AWS::Partition}:iam::${AWS::AccountId}:role/${Name} ${MyRole.Arn}!";
                  VObj [("Name", VStr "x")]])])
  = Ok (VStr "arn:aws:iam::123456789012:role/x arn:aws:iam::123456789012:role/role-1!").
Proof.
  assert (Hparts : well_formed_parts
                     [("arn:", "AWS::Partition"); (":iam::", "AWS::AccountId");
                      (":role/", "Name"); (" ", "MyRole.Arn")] "!").
  { split; [repeat constructor | reflexivity]. }
  assert (Hgiven : truthy (VObj [("Name", VStr "x")]) = true ->
                   evaluateCfnExpression sample_session (VObj [("Name", VStr "x")])
                   = Ok (VObj [("Name", VStr "x")])).
  { intros _. vm_compute. reflexivity. }
  assert (Habsent : truthy (VObj [("Name", VStr "x")]) = false ->
                    [("Name", VStr "x")] = @nil (string * value)).
  { intros H. vm_compute in H. discriminate H. }
  assert (Hstrings : Forall (fun kv : string * value => exists s, snd kv = VStr s)
                       [("Name", VStr "x")]).
  { repeat constructor. by exists "x". }
  assert (Hkeys : Forall (fun seg : string * string =>
                            assoc (snd seg) [("Name", VStr "x")] = None ->
                            inherited (snd seg) = false)
                    [("arn:", "AWS::Partition"); (":iam::", "AWS::AccountId");
                     (":role/", "Name"); (" ", "MyRole.Arn")]).
  { repeat constructor. }
  pose proof (proj1 (proj2 (sub_resolves_placeholders_in_order sample_session
                              (VObj [("Name", VStr "x")]) [("Name", VStr "x")]
                              Hgiven Habsent Hstrings) _ _ Hparts Hkeys)) as H.
  vm_compute in H. vm_compute. exact H.
Defined.

(** ** The fuel of the model is enough *)

Lemma fuelled_bind {A B : Type} (m : result A) (f : A -> result B) :
  fuelled m -> (forall a, fuelled (f a)) -> fuelled (m ≫= f).
Proof. destruct m; simpl; auto. Qed.

Lemma fuelled_fmap {A B : Type} (m : result A) (f : A -> B) :
  fuelled m -> fuelled (f <$> m).
Proof. destruct m; simpl; auto. Qed.

Lemma fuelled_sequence {A B : Type} (f : A -> result B) (l : list A) :
  (forall x, x ∈ l -> fuelled (f x)) -> fuelled (sequence f l).
Proof.
  induction l as [| x l IH]; intros H; [exact I |].
  cbn [sequence]. apply fuelled_bind; [apply H, list_elem_of_here |].
  intros y. apply fuelled_bind; [| intros; exact I].
  apply IH. intros z Hz. apply H. by apply list_elem_of_further.
Qed.

Lemma fuelled_promise_all {A : Type} (promises : list (result A)) :
  (forall r, r ∈ promises -> fuelled r) -> fuelled (promise_all promises).
Proof.
  induction promises as [| r l IH]; intros H; [exact I |].
  cbn [promise_all].
  assert (Hr : fuelled r) by apply H, list_elem_of_here.
  assert (Hl : fuelled (promise_all l)).
  { apply IH. intros z Hz. apply H. by apply list_elem_of_further. }
  destruct r, (promise_all l); try exact I; try contradiction.
  by destruct (String.eqb _ _).
Qed.

Lemma fuelled_evaluate_entries (f : value -> result value)
    (entries ret : list (string * value)) :
  (forall k x, (k, x) ∈ entries -> fuelled (f x)) ->
  fuelled (evaluate_entries f entries ret).
Proof.
  revert ret. induction entries as [| [k x] l IH]; intros ret H; [exact I |].
  cbn [evaluate_entries]. apply fuelled_bind; [apply (H k), list_elem_of_here |].
  intros v. apply fuelled_bind.
  - unfold assign. destruct (String.eqb k "__proto__"); [| exact I]. by destruct v.
  - intros ret'. apply IH. intros k' y Hy. apply (H k'). by apply list_elem_of_further.
Qed.

Lemma fuelled_formatResourceAttribute self sr (attribute : value) :
  fuelled (formatResourceAttribute self sr attribute).
Proof.
  unfold formatResourceAttribute, getServiceOfResource,
    getResourceTypeArnPartOfResource, type_segment, to_string.
  repeat (cbn [mbind result_bind];
          match goal with
          | |- context [match ?x with _ => _ end] => destruct x; try exact I
          end).
Qed.

Lemma fuelled_call_builtin (f this : value) : fuelled (call_builtin f this).
Proof.
  unfold call_builtin. destruct f, this; try exact I. by destruct (String.eqb _ _).
Qed.

Lemma fuelled_to_string (v : value) : fuelled (to_string v).
Proof. unfold to_string. by destruct (renders v). Qed.

Lemma fuelled_findGetAttTarget self (logicalId attribute : value) :
  fuelled (findGetAttTarget self logicalId attribute).
Proof.
  unfold findGetAttTarget. destruct (find_resource self logicalId); [| exact I].
  apply fuelled_formatResourceAttribute.
Qed.

Lemma fuelled_Ref self (logicalId : value) : fuelled (Ref self logicalId).
Proof.
  unfold Ref, findRefTarget. apply fuelled_bind.
  - apply fuelled_bind; [apply fuelled_to_string |]. intros key.
    destruct (truthy _); [exact I | apply fuelled_findGetAttTarget].
  - intros v. destruct (truthy v); [exact I |].
    apply fuelled_bind; [apply fuelled_to_string | by intros].
Qed.

Lemma fuelled_Fn_GetAtt self (logicalId attributeName : value) :
  fuelled (Fn_GetAtt self logicalId attributeName).
Proof.
  unfold Fn_GetAtt. apply fuelled_bind; [apply fuelled_findGetAttTarget |].
  intros v. destruct (truthy v); [exact I |].
  apply fuelled_bind; [apply fuelled_to_string |]. intros a.
  apply fuelled_bind; [apply fuelled_to_string | by intros].
Qed.

Lemma fuelled_get_property (v key : value) : fuelled (get_property v key).
Proof.
  unfold get_property, to_string.
  repeat (cbn [mbind result_bind];
          match goal with
          | |- context [match ?x with _ => _ end] => destruct x; try exact I
          end).
Qed.

Lemma fuelled_Fn_Sub_callback self (placeholders : value) (key : string) :
  fuelled (Fn_Sub_callback self placeholders key).
Proof.
  unfold Fn_Sub_callback. apply fuelled_bind.
  - unfold has_property. destruct placeholders; try exact I.
    repeat match goal with
           | |- context [if ?x then _ else _] => destruct x; try exact I
           end.
  - intros [].
    + apply fuelled_get_property.
    + destruct (_ =? _)%nat; [apply fuelled_Ref | apply fuelled_Fn_GetAtt].
Qed.

(** The loop of [asyncGlobalReplace] is given enough fuel for any string. *)
Lemma fuelled_asyncGlobalReplace (str : value) (cb : string -> result value) :
  (forall key, fuelled (cb key)) -> fuelled (asyncGlobalReplace str cb).
Proof.
  intros Hcb. destruct str as [| | | | s | | |]; try exact I;
    try (unfold asyncGlobalReplace; by destruct (native_free _)).
  unfold asyncGlobalReplace.
  destruct (template_has_parts s) as (segments & tail & -> & Hwf).
  pose proof (asyncGlobalReplace_loop_parts cb segments tail Hwf
                (S (String.length (render segments tail))) "" []) as Hloop.
  change ("" +:+ render segments tail) with (render segments tail) in Hloop.
  change (String.length "") with O in Hloop.
  rewrite Hloop by (pose proof (render_length segments tail); lia).
  apply fuelled_bind; [| intros; exact I].
  apply fuelled_bind; [| intros; exact I].
  apply fuelled_sequence. intros; apply Hcb.
Qed.

Lemma fuelled_evaluateIntrinsic self (f : value -> result value) (i : Intrinsic) :
  (forall items, args i = VArr items -> fuelled (f (parameter 1 items))) ->
  fuelled (f VUndefined) ->
  fuelled (evaluateIntrinsic self f i).
Proof.
  intros Hitems Hundef. unfold evaluateIntrinsic.
  destruct (lookup_member (name i) members) as [[h | p] |] eqn:Hl; try exact I.
  assert (Hp : fuelled (f (parameter 1 (match args i with
                                        | VArr items => items
                                        | other => [other]
                                        end)))).
  { destruct (args i); try exact Hundef. by apply Hitems. }
  destruct h; cbn [apply_member].
  - apply fuelled_bind; [exact Hp |]. intros v. unfold array_join.
    destruct v;
      try (destruct (own_method _ _); [apply fuelled_call_builtin | exact I]).
    apply fuelled_bind.
    + destruct (parameter 0 _); try exact I; apply fuelled_to_string.
    + intros sep. by destruct (forallb _ _).
  - apply fuelled_bind; [exact Hp |]. intros v. unfold string_split.
    destruct v;
      try (destruct (own_method _ _); [apply fuelled_call_builtin | exact I]).
    apply fuelled_bind; [| by intros].
    destruct (parameter 0 _); try exact I;
      (apply fuelled_bind; [apply fuelled_to_string | by intros]).
  - apply fuelled_bind; [exact Hp |]. intros v. apply fuelled_get_property.
  - apply fuelled_Ref.
  - apply fuelled_Fn_GetAtt.
  - unfold Fn_Sub. apply fuelled_bind.
    + destruct (truthy _); [exact Hp | exact I].
    + intros v. apply fuelled_asyncGlobalReplace. intros key.
      apply fuelled_bind; [apply fuelled_Fn_Sub_callback |].
      intros x. by destruct (renders x).
Qed.

Lemma fuelled_evaluate_body self (f : value -> result value) (e : value) :
  (forall x, (depth x < depth e)%nat -> fuelled (f x)) ->
  fuelled (evaluate_body self f e).
Proof.
  intros H. destruct e as [| | | | | items | entries | member]; try exact I;
    unfold evaluate_body; cbn [is_nullish].
  - apply fuelled_fmap, fuelled_promise_all. intros r Hr.
    apply list_elem_of_fmap in Hr as (x & -> & Hx). apply H. by apply depth_item.
  - destruct (parseIntrinsic entries) as [i |] eqn:Hi.
    + apply parseIntrinsic_Some in Hi as [-> Hgate].
      apply fuelled_evaluateIntrinsic.
      * intros items Ha. apply H. rewrite Ha.
        pose proof (depth_parameter 1 items). simpl in *. lia.
      * apply H. simpl. lia.
    + apply fuelled_bind.
      * apply fuelled_evaluate_entries.
        intros k x Hx. apply H. by eapply depth_entry.
      * intros ret. by destruct (thenable ret).
  - by destruct (callable _).
Qed.

(** No evaluation is cut short by the fuel of the model: the loop of
    [asyncGlobalReplace] and the recursion on the expression both end. *)
Lemma evaluateCfnExpression_fuelled self (e : value) :
  fuelled (evaluateCfnExpression self e).
Proof.
  remember (depth e) as n eqn:Hn. revert e Hn.
  induction n as [n IH] using lt_wf_ind. intros e ->.
  rewrite evaluateCfnExpression_unfold. apply fuelled_evaluate_body.
  intros x Hx. by apply (IH (depth x)).
Qed.

(** ** The evaluator on concrete expressions *)

Example join_example :
  evaluateCfnExpression sample_session
    (VObj [("Fn::Join", VArr [VStr ","; VArr [VStr "a"; VStr "b"; VStr "c"]])])
  = Ok (VStr "a,b,c").
Proof. vm_compute. reflexivity. Qed.

Example split_example :
  evaluateCfnExpression sample_session
    (VObj [("Fn::Split", VArr [VStr ","; VStr "a,b,c"])])
  = Ok (VArr [VStr "a"; VStr "b"; VStr "c"]).
Proof. vm_compute. reflexivity. Qed.

Example ref_parameter_example :
  evaluateCfnExpression sample_session (VObj [("Ref", VStr "Foo")]) = Ok (VStr "bar").
Proof. vm_compute. reflexivity. Qed.

Example ref_resource_example :
  evaluateCfnExpression sample_session (VObj [("Ref", VStr "MyBucket")])
  = Ok (VStr "my-bucket-1").
Proof. vm_compute. reflexivity. Qed.

Example getatt_bucket_example :
  evaluateCfnExpression sample_session
    (VObj [("Fn::GetAtt", VArr [VStr "MyBucket"; VStr "Arn"])])
  = Ok (VStr "arn:aws:s3:::my-bucket-1").
Proof. vm_compute. reflexivity. Qed.

Example getatt_function_example :
  evaluateCfnExpression sample_session
    (VObj [("Fn::GetAtt", VArr [VStr "MyFunction"; VStr "Arn"])])
  = Ok (VStr "arn:aws:lambda:us-east-1:123456789012:function:fn-1").
Proof. vm_compute. reflexivity. Qed.

Example getatt_unknown_attribute_example :
  evaluateCfnExpression sample_session
    (VObj [("Fn::GetAtt", VArr [VStr "MyRole"; VStr "RoleId"])])
  = Throw (UnsupportedAttribute "AWS::IAM::Role" "RoleId").
Proof. vm_compute. reflexivity. Qed.

Example getatt_compact_form_example :
  evaluateCfnExpression sample_session (VObj [("Fn::GetAtt", VStr "MyRole.Arn")])
  = Throw (UnresolvedAttribute "undefined" "MyRole.Arn").
Proof. vm_compute. reflexivity. Qed.

Example sub_explicit_example :
  evaluateCfnExpression sample_session
    (VObj [("Fn::Sub", VArr [VStr "Hello ${Name}"; VObj [("Name", VStr "World")]])])
  = Ok (VStr "Hello World").
Proof. vm_compute. reflexivity. Qed.

Example sub_pseudo_parameters_example :
  evaluateCfnExpression sample_session
    (VObj [("Fn::Sub", VStr "arn:${AWS::Partition}:iam::${AWS::AccountId}:role/x")])
  = Ok (VStr "arn:aws:iam::123456789012:role/x").
Proof. vm_compute. reflexivity. Qed.

Example sub_unclosed_placeholder_example :
  evaluateCfnExpression sample_session (VObj [("Fn::Sub", VStr "price: ${Foo} $ {x} ${")])
  = Ok (VStr "price: bar $ {x} ${").
Proof. vm_compute. reflexivity. Qed.

Example nested_example :
  evaluateCfnExpression sample_session
    (VObj [("Bucket", VObj [("Ref", VStr "MyBucket")]);
           ("Tags", VArr [VNum 1; VNull;
                          VObj [("Fn::Join",
                                 VArr [VStr "-"; VArr [VObj [("Ref", VStr "AWS::Region")];
                                                       VNum 3; VNull]])]])])
  = Ok (VObj [("Bucket", VStr "my-bucket-1");
              ("Tags", VArr [VNum 1; VNull; VStr "us-east-1-3-"])]).
Proof. vm_compute. reflexivity. Qed.

(** * Further properties of the evaluator *)

(** ** Sequences and plain objects *)

Lemma sequence_Ok {A B : Type} (f : A -> result B) (l : list A) (ys : list B) :
  sequence f l = Ok ys <-> Forall2 (fun x y => f x = Ok y) l ys.
Proof.
  revert ys. induction l as [| x l IH]; intros ys; cbn [sequence].
  - split.
    + intros [= <-]. constructor.
    + intros H. by inversion H.
  - split.
    + destruct (f x) as [y | | | |] eqn:Hx; try discriminate.
      cbn [mbind result_bind].
      destruct (sequence f l) as [zs | | | |] eqn:Hl; try discriminate.
      intros [= <-]. constructor; [exact Hx | by apply IH].
    + intros H. inversion H as [| x' y l' zs Hx Hl]; subst.
      rewrite Hx. cbn [mbind result_bind].
      apply IH in Hl. rewrite Hl. reflexivity.
Qed.

(** [Promise.all] resolves exactly when every promise does. *)
Lemma promise_all_Ok {A B : Type} (f : A -> result B) (l : list A) (ys : list B) :
  promise_all (map f l) = Ok ys <-> Forall2 (fun x y => f x = Ok y) l ys.
Proof.
  revert ys. induction l as [| x l IH]; intros ys; cbn [map promise_all].
  - split.
    + intros [= <-]. constructor.
    + intros H. by inversion H.
  - split.
    + destruct (f x) as [y | e | | |] eqn:Hx;
        destruct (promise_all (map f l)) as [zs | e' | | |] eqn:Hl;
        try discriminate.
      * intros [= <-]. constructor; [exact Hx | by apply IH].
      * by destruct (String.eqb _ _).
    + intros H. inversion H as [| x' y l' zs Hx Hl]; subst.
      rewrite Hx. apply IH in Hl. by rewrite Hl.
Qed.

(** X1.  A sequence evaluates successfully exactly when every element
    does, and then to the sequence of the elements' values: same length,
    same order. *)
Theorem evaluate_sequence_elementwise self (items : list value) (v : value) :
  evaluateCfnExpression self (VArr items) = Ok v
  <-> exists values,
        v = VArr values
        /\ Forall2 (fun x y => evaluateCfnExpression self x = Ok y) items values.
Proof.
  rewrite evaluateCfnExpression_unfold. unfold evaluate_body. cbn [is_nullish].
  split.
  - destruct (promise_all (map (evaluateCfnExpression self) items))
      as [values | | | |] eqn:Hseq; try discriminate.
    intros [= <-]. exists values. split; [reflexivity | by apply promise_all_Ok].
  - intros (values & -> & Hall). apply promise_all_Ok in Hall. by rewrite Hall.
Qed.

(** The loop over the entries of a plain object with distinct keys, none of
    them ["__proto__"]: the values are evaluated from first to last and put
    under their keys. *)
Lemma evaluate_entries_Ok (f : value -> result value)
    (entries ret out : list (string * value)) :
  NoDup (map fst (ret ++ entries)) ->
  "__proto__" ∉ map fst entries ->
  evaluate_entries f entries ret = Ok out
  <-> exists evaluated,
        out = ret ++ evaluated
        /\ Forall2 (fun kx ky => fst kx = fst ky /\ f (snd kx) = Ok (snd ky))
             entries evaluated.
Proof.
  revert ret out. induction entries as [| [k x] l IH]; intros ret out Hnodup Hproto;
    cbn [evaluate_entries].
  - split.
    + intros [= <-]. exists []. split; [by rewrite app_nil_r | constructor].
    + intros (evaluated & -> & H). inversion H. by rewrite app_nil_r.
  - assert (Hfresh : k ∉ map fst ret).
    { rewrite map_app in Hnodup. apply NoDup_app in Hnodup as (_ & Hdisj & _).
      intros Hin. apply (Hdisj k Hin). cbn [map fst]. apply list_elem_of_here. }
    assert (Hnodup' : forall y, NoDup (map fst ((ret ++ [(k, y)]) ++ l))).
    { intros y. rewrite <- app_assoc. rewrite !map_app in *. exact Hnodup. }
    cbn [map fst] in Hproto. apply not_elem_of_cons in Hproto as [Hk Hproto].
    assert (Hassign : forall y, assign k y ret = Ok (ret ++ [(k, y)])).
    { intros y. rewrite assign_key by congruence. by rewrite obj_set_fresh. }
    split.
    + destruct (f x) as [y | | | |] eqn:Hx; try discriminate.
      cbn [mbind result_bind]. rewrite Hassign. cbn [mbind result_bind].
      intros Hrest.
      apply IH in Hrest as (evaluated & -> & Hall); [| apply Hnodup' | exact Hproto].
      exists ((k, y) :: evaluated). split; [by rewrite <- app_assoc |].
      constructor; [split; [reflexivity | exact Hx] | exact Hall].
    + intros (evaluated & -> & Hall).
      inversion Hall as [| kx [k' y] l' ev' [Hk' Hx] Hl]; subst.
      cbn [fst snd] in Hk', Hx. subst k'. rewrite Hx. cbn [mbind result_bind].
      rewrite Hassign. cbn [mbind result_bind].
      apply IH; [apply Hnodup' | exact Hproto |].
      exists ev'. split; [by rewrite <- app_assoc | exact Hl].
Qed.

(** X2.  An object with distinct keys, none of them ["__proto__"], that is
    no intrinsic node (it has several keys, or none, or one key that is
    neither ["Ref"] nor starts with ["Fn::"]) evaluates successfully exactly
    when every value does and the results make no thenable (no built-in
    function under the key ["then"]), and then to the object with the same
    keys in the same order over the values' results. *)
Theorem evaluate_plain_object_entrywise self (entries : list (string * value))
    (v : value) :
  is_intrinsic_node entries = false ->
  NoDup (map fst entries) ->
  "__proto__" ∉ map fst entries ->
  evaluateCfnExpression self (VObj entries) = Ok v
  <-> exists evaluated,
        v = VObj evaluated
        /\ Forall2 (fun kx ky => fst kx = fst ky
                                 /\ evaluateCfnExpression self (snd kx) = Ok (snd ky))
             entries evaluated
        /\ thenable evaluated = false.
Proof.
  intros Hplain Hnodup Hproto.
  rewrite evaluateCfnExpression_unfold. unfold evaluate_body. cbn [is_nullish].
  rewrite parseIntrinsic_plain by exact Hplain.
  split.
  - destruct (evaluate_entries _ entries []) as [out | | | |] eqn:Hloop; try discriminate.
    cbn [mbind result_bind].
    destruct (thenable out) eqn:Hthen; [discriminate |].
    intros [= <-]. apply evaluate_entries_Ok in Hloop as (evaluated & -> & Hall);
      [| exact Hnodup | exact Hproto].
    by exists evaluated.
  - intros (evaluated & -> & Hall & Hthen).
    assert (Hloop : evaluate_entries (evaluateCfnExpression self) entries []
                    = Ok evaluated).
    { apply evaluate_entries_Ok; [exact Hnodup | exact Hproto |]. by exists evaluated. }
    rewrite Hloop. cbn [mbind result_bind]. by rewrite Hthen.
Qed.

Lemma evaluate_plain_object_entrywise_witness :
  evaluateCfnExpression sample_session
    (VObj [("Ref", VStr "Foo"); ("Bucket", VObj [("Ref", VStr "MyBucket")])])
  = Ok (VObj [("Ref", VStr "Foo"); ("Bucket", VStr "my-bucket-1")]).
Proof.
  apply (evaluate_plain_object_entrywise sample_session
           [("Ref", VStr "Foo"); ("Bucket", VObj [("Ref", VStr "MyBucket")])]).
  - reflexivity.
  - apply (bool_decide_unpack _). vm_compute. exact I.
  - apply (bool_decide_unpack _). vm_compute. exact I.
  - exists [("Ref", VStr "Foo"); ("Bucket", VStr "my-bucket-1")].
    split; [reflexivity |]. split; [| reflexivity].
    repeat constructor; vm_compute; reflexivity.
Defined.

(** ** The values of evaluation *)

Lemma plain_leaf (v : value) :
  match v with VArr _ | VObj _ => False | _ => True end -> plain v.
Proof. by destruct v. Qed.

Lemma plain_strings (l : list string) : plain (VArr (map VStr l)).
Proof.
  unfold plain. cbn [intrinsic_free keys_unique proto_free].
  induction l as [| s l IH]; [done |]. cbn [map forallb]. exact IH.
Qed.

Lemma plain_item (items : list value) (x : value) :
  plain (VArr items) -> x ∈ items -> plain x.
Proof.
  unfold plain. cbn [intrinsic_free keys_unique proto_free].
  rewrite !forallb_forall. intros (Hf & Hu & Hp) Hx. apply list_elem_of_In in Hx. auto.
Qed.

Lemma plain_array (items : list value) :
  Forall plain items -> plain (VArr items).
Proof.
  unfold plain. cbn [intrinsic_free keys_unique proto_free].
  rewrite !forallb_forall, Forall_forall. intros H.
  repeat split; intros x Hx; apply list_elem_of_In in Hx; by apply (H x).
Qed.

Lemma assoc_elem (key : string) (entries : list (string * value)) (x : value) :
  assoc key entries = Some x -> In (key, x) entries.
Proof.
  induction entries as [| [k w] l IH]; [discriminate |]. cbn [assoc].
  destruct (String.eqb_spec k key) as [-> | _].
  - intros [= ->]. by left.
  - intros H. right. by apply IH.
Qed.

Lemma plain_entry (entries : list (string * value)) (key : string) (x : value) :
  plain (VObj entries) -> In (key, x) entries -> plain x.
Proof.
  unfold plain. cbn [intrinsic_free keys_unique proto_free].
  intros (Hf & Hu & Hp) Hx.
  apply andb_true_iff in Hf as [_ Hf], Hu as [_ Hu].
  rewrite forallb_forall in Hf, Hu, Hp.
  specialize (Hf _ Hx). specialize (Hu _ Hx). specialize (Hp _ Hx).
  apply andb_true_iff in Hp as [_ Hp]. auto.
Qed.

Lemma own_property_plain (v : value) (key : string) (x : value) :
  plain v -> own_property v key = Some x -> plain x.
Proof.
  intros Hv. destruct v as [| | b | n | s | items | entries | member];
    try discriminate; cbn [own_property].
  - destruct (index_of_key key (String.length s)) as [i |].
    + destruct (String.get i s); [| discriminate]. by intros [= <-].
    + destruct (String.eqb key "length"); [| discriminate]. by intros [= <-].
  - destruct (index_of_key key (length items)) as [i |].
    + intros Hx. eapply plain_item; [exact Hv |]. by eapply list_elem_of_lookup_2.
    + destruct (String.eqb key "length"); [| discriminate]. by intros [= <-].
  - intros Hx. eapply plain_entry; [exact Hv |]. by eapply assoc_elem.
Qed.

(** A property read on a plain value gives a plain value. *)
Lemma get_property_plain (v key x : value) :
  plain v -> get_property v key = Ok x -> plain x.
Proof.
  intros Hv. unfold get_property.
  assert (Hown : forall w,
             (k ← to_string key;
              match own_property w k with
              | Some y => Ok y
              | None => if is_numeral k then Ok VUndefined else Unmodelled
              end) = Ok x ->
             plain w -> plain x).
  { intros w. destruct (to_string key) as [k | | | |]; try discriminate.
    cbn [mbind result_bind].
    destruct (own_property w k) as [y |] eqn:Hy.
    - intros [= <-] Hw. by eapply own_property_plain.
    - destruct (is_numeral k); [| discriminate]. by intros [= <-]. }
  destruct v as [| | b | n | s | items | entries | member]; try discriminate.
  - intros H. exact (Hown (VBool b) H Hv).
  - intros H. exact (Hown (VNum n) H Hv).
  - intros H. exact (Hown (VStr s) H Hv).
  - destruct key; try (intros H; exact (Hown (VArr items) H Hv)).
    intros [= <-]. unfold at_index. destruct (decide _); [| done].
    destruct (items !! _) as [y |] eqn:Hy; [| done].
    eapply plain_item; [exact Hv |]. by eapply list_elem_of_lookup_2.
  - destruct (to_string key) as [k | | | |]; try discriminate.
    cbn [mbind result_bind].
    destruct (assoc k entries) as [y |] eqn:Hy.
    + intros [= <-]. eapply plain_entry; [exact Hv |]. by eapply assoc_elem.
    + intros [= <-]. by destruct (inherited _).
Qed.

Lemma parameter_ok (i : nat) (items : list value) :
  keys_unique (VArr items) = true -> proto_free (VArr items) = true ->
  keys_unique (parameter i items) = true /\ proto_free (parameter i items) = true.
Proof.
  cbn [keys_unique proto_free]. rewrite !forallb_forall. intros Hu Hp. unfold parameter.
  destruct (items !! i) as [x |] eqn:Hx; [| by split].
  apply list_elem_of_lookup_2, list_elem_of_In in Hx. cbn [default]. auto.
Qed.

Lemma second_parameter_depth (i : Intrinsic) :
  (depth (parameter 1 (match args i with VArr items => items | other => [other] end))
   <= depth (args i))%nat.
Proof.
  destruct (args i) as [| | | | | items | |]; try (cbn; lia).
  pose proof (depth_parameter 1 items). lia.
Qed.

Lemma second_parameter_ok (i : Intrinsic) :
  keys_unique (args i) = true -> proto_free (args i) = true ->
  keys_unique (parameter 1 (match args i with VArr items => items | other => [other] end))
  = true
  /\ proto_free (parameter 1 (match args i with VArr items => items | other => [other] end))
     = true.
Proof.
  destruct (args i) as [| | | | | items | |]; try (by split). apply parameter_ok.
Qed.

Lemma parseIntrinsic_None (entries : list (string * value)) :
  parseIntrinsic entries = None -> is_intrinsic_node entries = false.
Proof.
  unfold is_intrinsic_node, parseIntrinsic.
  destruct entries as [| [k a] [| ? ?]]; try reflexivity.
  cbn [map fst]. rewrite orb_comm.
  by destruct (String.eqb k "Ref" || JsString.startsWith "Fn::" k).
Qed.

Lemma same_keys (entries evaluated : list (string * value)) (P : value -> value -> Prop) :
  Forall2 (fun kx ky => fst kx = fst ky /\ P (snd kx) (snd ky)) entries evaluated ->
  map fst evaluated = map fst entries
  /\ is_intrinsic_node evaluated = is_intrinsic_node entries.
Proof.
  intros H. split.
  - induction H as [| [k x] [k' y] l l' [Hk _] _ IH]; [reflexivity |].
    cbn [map fst] in *. by rewrite IH, Hk.
  - destruct H as [| [k x] [k' y] l l' [Hk _] Hl]; [reflexivity |].
    cbn [fst] in Hk. subst k'. destruct Hl; reflexivity.
Qed.

(** An object is plain when it is no intrinsic node, its keys are distinct
    and none of them is ["__proto__"], and its values are plain. *)
Lemma plain_object (entries : list (string * value)) :
  is_intrinsic_node entries = false ->
  NoDup (map fst entries) ->
  "__proto__" ∉ map fst entries ->
  Forall (fun kv => plain (snd kv)) entries ->
  plain (VObj entries).
Proof.
  intros Hnode Hnodup Hproto Hvals. unfold plain.
  cbn [intrinsic_free keys_unique proto_free].
  rewrite Hnode, (bool_decide_eq_true_2 _ Hnodup). cbn [negb andb].
  rewrite !forallb_forall. rewrite Forall_forall in Hvals.
  repeat split; intros kv Hkv; pose proof Hkv as Hin;
    apply list_elem_of_In in Hkv; destruct (Hvals kv Hkv) as (Hf & Hu & Hp); auto.
  rewrite Hp, andb_true_r. apply negb_true_iff.
  destruct (String.eqb_spec (fst kv) "__proto__") as [Heq | _]; [| reflexivity].
  exfalso. apply Hproto. rewrite <- Heq. apply list_elem_of_fmap. eauto.
Qed.

Lemma findGetAttTarget_value self (logicalId attribute v : value) :
  findGetAttTarget self logicalId attribute = Ok v -> plain v.
Proof.
  unfold findGetAttTarget, formatResourceAttribute.
  destruct (find_resource self logicalId) as [sr |]; [| by intros [= <-]].
  destruct (negb (truthy attribute)).
  { intros [= <-]. by destruct (PhysicalResourceId sr). }
  destruct (RESOURCE_TYPE_ATTRIBUTES_FORMATS !! ResourceType sr) as [formats |];
    [| by destruct (inherited _)].
  destruct (to_string attribute) as [key | | | |]; try discriminate.
  cbn [mbind result_bind].
  destruct (formats !! key) as [fmt |]; [| by destruct (inherited _)].
  destruct (getServiceOfResource sr); try discriminate. cbn [mbind result_bind].
  destruct (getResourceTypeArnPartOfResource sr); try discriminate.
  cbn [mbind result_bind]. by intros [= <-].
Qed.

Lemma Ref_value self (logicalId v : value) :
  Ref self logicalId = Ok v -> plain v.
Proof.
  unfold Ref, findRefTarget.
  destruct (to_string logicalId) as [key | | | |]; try discriminate.
  cbn [mbind result_bind].
  destruct (truthy (context_read self key)) eqn:Hctx.
  - cbn [mbind result_bind]. rewrite Hctx. intros [= <-].
    unfold context_read. destruct (context self !! _); [done |]. by destruct (inherited _).
  - destruct (findGetAttTarget self logicalId VUndefined) as [x | | | |] eqn:Hx;
      try discriminate.
    cbn [mbind result_bind]. destruct (truthy x); [| discriminate].
    intros [= <-]. by eapply findGetAttTarget_value.
Qed.

Lemma Fn_GetAtt_value self (logicalId attributeName v : value) :
  Fn_GetAtt self logicalId attributeName = Ok v -> plain v.
Proof.
  unfold Fn_GetAtt.
  destruct (findGetAttTarget self logicalId attributeName) as [x | | | |] eqn:Hx;
    try discriminate.
  cbn [mbind result_bind]. destruct (truthy x).
  - intros [= <-]. by eapply findGetAttTarget_value.
  - destruct (to_string attributeName); try discriminate. cbn [mbind result_bind].
    destruct (to_string logicalId); discriminate.
Qed.

Lemma asyncGlobalReplace_value (str : value) (cb : string -> result value) (v : value) :
  asyncGlobalReplace str cb = Ok v -> exists s, v = VStr s.
Proof.
  unfold asyncGlobalReplace.
  destruct str; try discriminate; try (by destruct (native_free _)).
  destruct (asyncGlobalReplace_loop _ _ _ _ _ _); try discriminate.
  cbn [mbind result_bind]. intros [= <-]. eauto.
Qed.

Lemma call_builtin_value (f this v : value) :
  call_builtin f this = Ok v -> exists s, v = VStr s.
Proof.
  unfold call_builtin. destruct f, this; try discriminate.
  destruct (String.eqb _ _); [| discriminate]. intros [= <-]. eauto.
Qed.

Lemma array_join_value (evaluatedArgs separator v : value) :
  array_join evaluatedArgs separator = Ok v -> exists s, v = VStr s.
Proof.
  unfold array_join.
  destruct evaluatedArgs;
    try (destruct (own_method _ _); [apply call_builtin_value | discriminate]).
  destruct (match separator with VUndefined => Ok "," | _ => to_string separator end);
    try discriminate.
  cbn [mbind result_bind]. destruct (forallb _ _); [| discriminate].
  intros [= <-]. eauto.
Qed.

Lemma string_split_value (evaluatedArgs separator v : value) :
  string_split evaluatedArgs separator = Ok v -> plain v.
Proof.
  unfold string_split.
  destruct evaluatedArgs;
    try (destruct (own_method _ _); [| discriminate];
         intros H; by apply call_builtin_value in H as [t ->]).
  destruct (match separator with
            | VUndefined => Ok [s]
            | _ => sep ← to_string separator; Ok (JsString.split sep s)
            end); try discriminate.
  cbn [mbind result_bind]. intros [= <-]. apply plain_strings.
Qed.

(** What an intrinsic function returns is plain, when what its second
    argument evaluates to is plain. *)
Lemma evaluateIntrinsic_value self (f : value -> result value) (i : Intrinsic)
    (v : value) :
  (forall ea,
     f (parameter 1 (match args i with VArr items => items | other => [other] end))
     = Ok ea ->
     plain ea) ->
  evaluateIntrinsic self f i = Ok v ->
  plain v.
Proof.
  intros Harg. unfold evaluateIntrinsic.
  destruct (lookup_member (name i) members) as [[h | p] |]; try discriminate.
  set (argsAsArray := match args i with VArr items => items | other => [other] end) in *.
  destruct h; cbn [apply_member].
  - unfold Fn_Join. destruct (f (parameter 1 argsAsArray)) as [ea | | | |]; try discriminate.
    cbn [mbind result_bind]. intros H. by apply array_join_value in H as [s ->].
  - unfold Fn_Split. destruct (f (parameter 1 argsAsArray)) as [ea | | | |]; try discriminate.
    cbn [mbind result_bind]. apply string_split_value.
  - unfold Fn_Select.
    destruct (f (parameter 1 argsAsArray)) as [ea | | | |] eqn:Hea; try discriminate.
    cbn [mbind result_bind]. apply get_property_plain. by apply Harg.
  - apply Ref_value.
  - apply Fn_GetAtt_value.
  - unfold Fn_Sub. destruct (if truthy _ then _ else _); try discriminate.
    cbn [mbind result_bind]. intros H. by apply asyncGlobalReplace_value in H as [s ->].
Qed.

(** The value of an expression with distinct keys and no key ["__proto__"]
    is plain. *)
Lemma evaluate_value_plain self (n : nat) (e v : value) :
  (depth e < n)%nat ->
  keys_unique e = true ->
  proto_free e = true ->
  evaluateCfnExpression self e = Ok v ->
  plain v.
Proof.
  revert e v. induction n as [| n IH]; intros e v Hdepth Huniq Hproto; [lia |].
  rewrite evaluateCfnExpression_unfold.
  destruct e as [| | b | z | s | items | entries | member];
    unfold evaluate_body; cbn [is_nullish];
    try (by intros [= <-]).
  - destruct (promise_all (map (evaluateCfnExpression self) items))
      as [values | | | |] eqn:Hseq; try discriminate.
    intros [= <-]. apply promise_all_Ok in Hseq.
    cbn [keys_unique proto_free] in Huniq, Hproto.
    rewrite forallb_forall in Huniq, Hproto.
    apply plain_array.
    revert Hdepth Huniq Hproto. clear -Hseq IH.
    induction Hseq as [| x y l l' Hx _ IHl]; intros Hdepth Huniq Hproto; constructor.
    + apply (IH x y); [| apply Huniq; by left | apply Hproto; by left | exact Hx].
      pose proof (depth_item x (x :: l) (list_elem_of_here _ _)). lia.
    + apply IHl.
      * simpl in *. lia.
      * intros z Hz. apply Huniq. by right.
      * intros z Hz. apply Hproto. by right.
  - destruct (parseIntrinsic entries) as [i |] eqn:Hi.
    + apply parseIntrinsic_Some in Hi as [-> _].
      apply evaluateIntrinsic_value. intros ea Hea.
      cbn [keys_unique proto_free forallb fst snd] in Huniq, Hproto.
      apply andb_true_iff in Huniq as [_ Huniq]. apply andb_true_iff in Huniq as [Huniq _].
      apply andb_true_iff in Hproto as [Hproto _].
      apply andb_true_iff in Hproto as [_ Hproto].
      destruct (second_parameter_ok i Huniq Hproto) as [Hu Hp].
      eapply IH; [| exact Hu | exact Hp | exact Hea].
      pose proof (second_parameter_depth i) as Hle.
      change (S (Nat.max (depth (args i)) 0) < S n)%nat in Hdepth. lia.
    + destruct (evaluate_entries _ entries []) as [out | | | |] eqn:Hloop; try discriminate.
      cbn [mbind result_bind]. destruct (thenable out); [discriminate |].
      intros [= <-].
      pose proof (proto_free_keys _ Hproto) as Hkeys.
      cbn [keys_unique proto_free] in Huniq, Hproto.
      apply andb_true_iff in Huniq as [Hnodup Huniq].
      apply bool_decide_eq_true in Hnodup. rewrite forallb_forall in Huniq, Hproto.
      apply evaluate_entries_Ok in Hloop as (evaluated & -> & Hall);
        [| exact Hnodup | exact Hkeys].
      cbn [app]. destruct (same_keys entries evaluated
                  (fun x y => evaluateCfnExpression self x = Ok y) Hall) as [Hsame Hnode].
      apply plain_object.
      * rewrite Hnode. by apply parseIntrinsic_None.
      * by rewrite Hsame.
      * by rewrite Hsame.
      * revert Hdepth Huniq Hproto. clear -Hall IH.
        induction Hall as [| [k x] [k' y] l l' [_ Hx] _ IHl]; intros Hdepth Huniq Hproto;
          constructor.
        -- cbn [snd] in *. apply (IH x y); [| apply (Huniq (k, x)); by left | | exact Hx].
           ++ pose proof (depth_entry k x ((k, x) :: l) (list_elem_of_here _ _)). lia.
           ++ assert (Hp := Hproto (k, x) (or_introl eq_refl)).
              by apply andb_true_iff in Hp as [_ Hp].
        -- apply IHl.
           ++ simpl in *. lia.
           ++ intros z Hz. apply Huniq. by right.
           ++ intros z Hz. apply Hproto. by right.
  - destruct (callable (VNative member)); by intros [= <-].
Qed.

(** Plain data evaluates to itself. *)
Lemma evaluate_plain_value self (e : value) :
  plain e -> native_free e = true ->
  evaluateCfnExpression self e = Ok e.
Proof.
  induction e as [| | b | n | s | items IH | entries IH | member] using value_nested_ind;
    intros Hplain Hdata; try reflexivity; try discriminate;
    rewrite evaluateCfnExpression_unfold; unfold evaluate_body; cbn [is_nullish].
  - rewrite promise_all_identity; [reflexivity |].
    cbn [native_free] in Hdata. rewrite forallb_forall in Hdata.
    rewrite Forall_forall in *. intros x Hx.
    apply IH; [exact Hx | by eapply plain_item |]. apply Hdata. by apply list_elem_of_In.
  - pose proof (thenable_data _ Hdata) as Hthen.
    pose proof Hplain as (Hfree & Huniq & Hproto).
    pose proof (proto_free_keys _ Hproto) as Hkeys.
    cbn [intrinsic_free keys_unique] in Hfree, Huniq.
    apply andb_true_iff in Hfree as [Hnode _], Huniq as [Hnodup _].
    apply negb_true_iff in Hnode. apply bool_decide_eq_true in Hnodup.
    rewrite parseIntrinsic_plain by exact Hnode.
    rewrite evaluate_entries_identity; [| | exact Hnodup | exact Hkeys].
    + cbn [mbind result_bind app]. by rewrite Hthen.
    + cbn [native_free] in Hdata. rewrite forallb_forall in Hdata.
      rewrite Forall_forall in IH. intros k x Hx.
      apply (IH (k, x) Hx).
      * eapply plain_entry; [exact Hplain |]. apply list_elem_of_In. exact Hx.
      * apply (Hdata (k, x)). by apply list_elem_of_In.
Qed.

(** X3.  The value of a successful evaluation (of an expression whose
    objects have distinct keys, none of them ["__proto__"]) contains no
    intrinsic node at any depth, and when it holds no built-in, evaluating it
    again returns it unchanged. *)
Theorem evaluation_is_idempotent self (e v : value) :
  keys_unique e = true ->
  proto_free e = true ->
  evaluateCfnExpression self e = Ok v ->
  intrinsic_free v = true
  /\ (native_free v = true -> evaluateCfnExpression self v = Ok v).
Proof.
  intros Huniq Hproto Hev.
  assert (Hplain : plain v).
  { apply (evaluate_value_plain self (S (depth e)) e v); [lia | done | done | done]. }
  split; [apply Hplain | by apply evaluate_plain_value].
Qed.

Lemma evaluation_is_idempotent_witness :
  intrinsic_free (VObj [("Role", VStr "arn:aws:iam::123456789012:role/role-1");
                        ("Pick", VObj [("Fn", VNull)])]) = true
  /\ (native_free (VObj [("Role", VStr "arn:aws:iam::123456789012:role/role-1");
                         ("Pick", VObj [("Fn", VNull)])]) = true ->
      evaluateCfnExpression sample_session
        (VObj [("Role", VStr "arn:aws:iam::123456789012:role/role-1");
               ("Pick", VObj [("Fn", VNull)])])
      = Ok (VObj [("Role", VStr "arn:aws:iam::123456789012:role/role-1");
                  ("Pick", VObj [("Fn", VNull)])])).
Proof.
  apply (evaluation_is_idempotent sample_session
           (VObj [("Role", VObj [("Fn::GetAtt", VArr [VStr "MyRole"; VStr "Arn"])]);
                  ("Pick", VObj [("Fn::Select",
                                  VArr [VNum 1; VArr [VNum 0; VObj [("Fn", VNull)]]])])])).
  - vm_compute. reflexivity.
  - vm_compute. reflexivity.
  - vm_compute. reflexivity.
Defined.

(** ** The arguments of an intrinsic function *)

(** X4.  An argument that is not an array is passed as the only argument:
    [{name: a}] and [{name: [a]}] evaluate alike, for every name that
    [parseIntrinsic] lets through. *)
Theorem scalar_argument_is_singleton_list self (nm : string) (a : value) :
  JsString.startsWith "Fn::" nm = true \/ nm = "Ref" ->
  (forall items, a <> VArr items) ->
  evaluateCfnExpression self (VObj [(nm, a)])
  = evaluateCfnExpression self (VObj [(nm, VArr [a])]).
Proof.
  intros Hgate Hscalar. rewrite !evaluate_intrinsic_node by exact Hgate.
  unfold evaluateIntrinsic. cbn [name args].
  destruct (lookup_member nm members) as [m |]; [| reflexivity].
  destruct a as [| | | | | items | |]; try reflexivity.
  by destruct (Hscalar items).
Qed.

Lemma scalar_argument_is_singleton_list_witness :
  evaluateCfnExpression sample_session (VObj [("Ref", VStr "MyRole")])
  = evaluateCfnExpression sample_session (VObj [("Ref", VArr [VStr "MyRole"])]).
Proof.
  apply scalar_argument_is_singleton_list.
  - right. reflexivity.
  - discriminate.
Defined.

(** ** [Fn::Join] and [Fn::Split], continued *)

Lemma Forall2_strings (f : value -> result value) (items : list value)
    (strs : list string) :
  Forall2 (fun x s => f x = Ok (VStr s)) items strs ->
  promise_all (map f items) = Ok (map VStr strs).
Proof.
  intros H. apply promise_all_Ok. induction H; constructor; auto.
Qed.

(** X5.  [Fn::Join] first evaluates the elements of its list, and then
    joins their values: when the elements evaluate to the strings [strs],
    the result is those strings with the separator between them. *)
Theorem join_evaluates_then_joins self (sep : string) (items : list value)
    (strs : list string) :
  Forall2 (fun x s => evaluateCfnExpression self x = Ok (VStr s)) items strs ->
  evaluateCfnExpression self (VObj [("Fn::Join", VArr [VStr sep; VArr items])])
  = Ok (VStr (String.concat sep strs)).
Proof.
  intros Hitems. rewrite Join_node.
  assert (Hlist : evaluateCfnExpression self (VArr items) = Ok (VArr (map VStr strs))).
  { rewrite evaluateCfnExpression_unfold. unfold evaluate_body. cbn [is_nullish].
    by rewrite (Forall2_strings _ _ _ Hitems). }
  rewrite Hlist. unfold array_join, to_string.
  cbn [renders ToString mbind result_bind].
  by rewrite renders_strings, map_join_element_strings.
Qed.

Lemma join_evaluates_then_joins_witness :
  evaluateCfnExpression sample_session
    (VObj [("Fn::Join",
            VArr [VStr "/"; VArr [VObj [("Ref", VStr "MyBucket")]; VStr "logs";
                                  VObj [("Ref", VStr "AWS::Region")]]])])
  = Ok (VStr "my-bucket-1/logs/us-east-1").
Proof.
  apply (join_evaluates_then_joins sample_session "/"
           [VObj [("Ref", VStr "MyBucket")]; VStr "logs"; VObj [("Ref", VStr "AWS::Region")]]
           ["my-bucket-1"; "logs"; "us-east-1"]).
  repeat constructor; vm_compute; reflexivity.
Defined.

(** A piece without the first character of the separator is passed over by
    the scan. *)
Lemma split_scan_free (d : ascii) (sep' piece rest cur : string) :
  JsString.contains_char d piece = false ->
  JsString.split_scan (String d sep') (piece +:+ rest) 0 cur
  = JsString.split_scan (String d sep') rest 0 (cur +:+ piece).
Proof.
  revert cur. induction piece as [| c piece IH]; intros cur Hfree.
  - by rewrite append_nil_r.
  - cbn [JsString.contains_char] in Hfree. apply orb_false_iff in Hfree as [Hc Hfree].
    change (String c piece +:+ rest) with (String c (piece +:+ rest)).
    cbn [JsString.split_scan String.prefix].
    destruct (Ascii.ascii_dec d c) as [-> | _]; [by rewrite Ascii.eqb_refl in Hc |].
    rewrite IH by exact Hfree. rewrite append_assoc. reflexivity.
Qed.

(** Splitting what was joined, for a separator of one character that the
    pieces do not contain *)
Lemma split_scan_join (c : ascii) (pieces : list string) (p cur : string) :
  Forall (fun q => JsString.contains_char c q = false) (p :: pieces) ->
  JsString.split_scan (JsString.char c) (JsString.join (JsString.char c) (p :: pieces)) 0 cur
  = (cur +:+ p) :: pieces.
Proof.
  revert p cur. induction pieces as [| q pieces IH]; intros p cur Hfree.
  - apply Forall_cons in Hfree as [Hp _]. cbn [JsString.join String.concat].
    rewrite <- (append_nil_r p) at 1. unfold JsString.char.
    rewrite split_scan_free by exact Hp. reflexivity.
  - apply Forall_cons in Hfree as [Hp Hrest].
    rewrite join_cons by discriminate. unfold JsString.char in *.
    rewrite split_scan_free by exact Hp.
    change (String c "" +:+ JsString.join (String c "") (q :: pieces))
      with (String c (JsString.join (String c "") (q :: pieces))).
    cbn [JsString.split_scan String.prefix String.length].
    destruct (Ascii.ascii_dec c c) as [_ | Hne]; [| congruence].
    assert (Hprefix : String.prefix "" (JsString.join (String c "") (q :: pieces)) = true)
      by (by destruct (JsString.join (String c "") (q :: pieces))).
    rewrite Hprefix. cbn [Nat.sub]. by rewrite (IH q "" Hrest).
Qed.

Lemma Join_of_strings self (sep : string) (pieces : list string) :
  evaluateCfnExpression self
    (VObj [("Fn::Join", VArr [VStr sep; VArr (map VStr pieces)])])
  = Ok (VStr (JsString.join sep pieces)).
Proof.
  rewrite Join_node.
  assert (Hlist : evaluateCfnExpression self (VArr (map VStr pieces))
                  = Ok (VArr (map VStr pieces))).
  { rewrite evaluateCfnExpression_unfold. unfold evaluate_body. cbn [is_nullish].
    rewrite promise_all_identity; [reflexivity |].
    apply Forall_forall. intros x Hx. apply list_elem_of_fmap in Hx as (s & -> & _).
    reflexivity. }
  rewrite Hlist. unfold array_join, to_string.
  cbn [renders ToString mbind result_bind].
  by rewrite renders_strings, map_join_element_strings.
Qed.

(** X6.  The other round trip: for a separator of one character and a
    non-empty list of strings that do not contain it, [Fn::Split] of
    [Fn::Join] of the list is the list. *)
Theorem split_of_join_is_identity self (c : ascii) (pieces : list string) :
  pieces <> [] ->
  Forall (fun q => JsString.contains_char c q = false) pieces ->
  evaluateCfnExpression self
    (VObj [("Fn::Split",
            VArr [VStr (JsString.char c);
                  VObj [("Fn::Join", VArr [VStr (JsString.char c);
                                           VArr (map VStr pieces)])]])])
  = Ok (VArr (map VStr pieces)).
Proof.
  intros Hne Hfree. rewrite Split_node.
  rewrite Join_of_strings.
  cbn [mbind result_bind]. unfold string_split, to_string.
  cbn [renders ToString mbind result_bind].
  destruct pieces as [| p pieces]; [congruence |].
  change (JsString.split (JsString.char c) (JsString.join (JsString.char c) (p :: pieces)))
    with (JsString.split_scan (JsString.char c)
            (JsString.join (JsString.char c) (p :: pieces)) 0 "").
  by rewrite split_scan_join.
Qed.

Lemma split_of_join_is_identity_witness :
  evaluateCfnExpression sample_session
    (VObj [("Fn::Split",
            VArr [VStr ",";
                  VObj [("Fn::Join", VArr [VStr ","; VArr [VStr "a"; VStr ""; VStr "b c"]])]])])
  = Ok (VArr [VStr "a"; VStr ""; VStr "b c"]).
Proof.
  apply (split_of_join_is_identity sample_session ","%char ["a"; ""; "b c"]).
  - discriminate.
  - repeat constructor.
Defined.

(** X7.  [Fn::Join] and [Fn::Split] leave a wrong kind of value to the
    runtime: joining what does not evaluate to an array, or splitting what
    does not evaluate to a string, is rejected with a [TypeError], not with
    a [CfnEvaluationException].  The one value set aside is an object that
    holds a built-in function under the key ["join"], or ["split"]: there
    the call finds something to call. *)
Theorem join_split_wrong_value_type_error self (separator arg v : value) :
  evaluateCfnExpression self arg = Ok v ->
  ((forall items, v <> VArr items) ->
   own_method "join" v = false ->
   evaluateCfnExpression self (VObj [("Fn::Join", VArr [separator; arg])]) = TypeError)
  /\ ((forall s, v <> VStr s) ->
      own_method "split" v = false ->
      evaluateCfnExpression self (VObj [("Fn::Split", VArr [separator; arg])]) = TypeError).
Proof.
  intros Harg. split; intros Hkind Hmethod.
  - rewrite Join_node, Harg. cbn [mbind result_bind]. unfold array_join.
    rewrite Hmethod. destruct v as [| | | | | items | |]; try reflexivity.
    by destruct (Hkind items).
  - rewrite Split_node, Harg. cbn [mbind result_bind]. unfold string_split.
    rewrite Hmethod. destruct v as [| | | | s | | |]; try reflexivity.
    by destruct (Hkind s).
Qed.

(** The value that is set aside: [join] finds the built-in [toString] under
    the key, and calls it. *)
Example join_of_object_with_builtin_join :
  evaluateCfnExpression sample_session
    (VObj [("Fn::Join",
            VArr [VStr ","; VObj [("join", VObj [("Ref", VStr "toString")])]])])
  = Ok (VStr "[object Object]").
Proof. vm_compute. reflexivity. Qed.

Lemma join_split_wrong_value_type_error_witness :
  evaluateCfnExpression sample_session
    (VObj [("Fn::Split", VArr [VStr ","; VArr [VStr "a,b"]])]) = TypeError.
Proof.
  refine (proj2 (join_split_wrong_value_type_error sample_session (VStr ",")
                   (VArr [VStr "a,b"]) (VArr [VStr "a,b"]) _) _ _).
  - vm_compute. reflexivity.
  - discriminate.
  - reflexivity.
Defined.

(** ** [Fn::GetAtt], continued *)

Lemma find_resource_absent self (logicalId : string) :
  (forall sr, sr ∈ stackResources self -> LogicalResourceId sr <> logicalId) ->
  find_resource self (VStr logicalId) = None.
Proof.
  intros Habsent. rewrite find_resource_first.
  destruct (list_find _ (stackResources self)) as [[i sr] |] eqn:Hfind; [| reflexivity].
  apply list_find_Some in Hfind as (Hi & Hname & _).
  exfalso. eapply Habsent; [| exact Hname]. by eapply list_elem_of_lookup_2.
Qed.

(** X8.  [Fn::GetAtt] looks only at the inventory: for a logical id that no
    record has, it is rejected with "Attribute '<attribute>' of resource
    '<logicalId>' could not be found for evaluation", whatever the parameter
    context holds under that name. *)
Theorem getatt_of_missing_resource_rejected self (logicalId attribute : string) :
  (forall sr, sr ∈ stackResources self -> LogicalResourceId sr <> logicalId) ->
  evaluateCfnExpression self
    (VObj [("Fn::GetAtt", VArr [VStr logicalId; VStr attribute])])
  = Throw (UnresolvedAttribute attribute logicalId).
Proof.
  intros Habsent. rewrite GetAtt_node. unfold Fn_GetAtt, findGetAttTarget.
  by rewrite find_resource_absent.
Qed.

Lemma getatt_of_missing_resource_rejected_witness :
  context sample_session !! "Foo" = Some "bar"
  /\ evaluateCfnExpression sample_session
       (VObj [("Fn::GetAtt", VArr [VStr "Foo"; VStr "Arn"])])
     = Throw (UnresolvedAttribute "Arn" "Foo").
Proof.
  split; [vm_compute; reflexivity |].
  apply getatt_of_missing_resource_rejected.
  intros sr Hsr. repeat (apply elem_of_cons in Hsr as [-> | Hsr]; [discriminate |]).
  by apply elem_of_nil in Hsr.
Defined.

Lemma formatter_table_only_Arn (kind attribute : string) :
  kind ∈ registered_kinds -> attribute <> "Arn" ->
  exists formats,
    RESOURCE_TYPE_ATTRIBUTES_FORMATS !! kind = Some formats
    /\ formats !! attribute = None.
Proof.
  intros Hkind Hattr. unfold registered_kinds in Hkind.
  repeat (apply elem_of_cons in Hkind as [-> | Hkind];
          [eexists; split; [reflexivity | by apply lookup_singleton_ne] |]).
  by apply elem_of_nil in Hkind.
Qed.

(** X9.  For a record of a kind of the formatter table, [Fn::GetAtt] of a
    non-empty attribute other than ["Arn"], and other than the names of the
    members of [Object.prototype], is rejected with "We don't support the
    '<attribute>' attribute of the '<kind>' resource ...". *)
Theorem getatt_unsupported_attribute_rejected self (logicalId attribute : string)
    (i : nat) (sr : StackResourceSummary) :
  list_find (fun sr => LogicalResourceId sr = logicalId) (stackResources self)
  = Some (i, sr) ->
  ResourceType sr ∈ registered_kinds ->
  attribute <> "" ->
  attribute <> "Arn" ->
  inherited attribute = false ->
  evaluateCfnExpression self
    (VObj [("Fn::GetAtt", VArr [VStr logicalId; VStr attribute])])
  = Throw (UnsupportedAttribute (ResourceType sr) attribute).
Proof.
  intros Hfind Hkind Hattr HArn Hown.
  rewrite GetAtt_node, (GetAtt_found _ _ _ _ _ Hfind Hattr).
  unfold formatResourceAttribute.
  assert (Htruthy : truthy (VStr attribute) = true).
  { cbn [truthy]. by destruct (String.eqb_spec attribute ""). }
  destruct (formatter_table_only_Arn _ _ Hkind HArn) as (formats & Htable & Hformat).
  rewrite Htruthy, Htable. unfold to_string.
  cbn [negb renders ToString mbind result_bind]. by rewrite Hformat, Hown.
Qed.

Lemma getatt_unsupported_attribute_rejected_witness :
  evaluateCfnExpression sample_session
    (VObj [("Fn::GetAtt", VArr [VStr "MyFunction"; VStr "Version"])])
  = Throw (UnsupportedAttribute "AWS::Lambda::Function" "Version").
Proof.
  apply (getatt_unsupported_attribute_rejected sample_session "MyFunction" "Version" 2
           {| LogicalResourceId := "MyFunction"; PhysicalResourceId := Some "fn-1";
              ResourceType := "AWS::Lambda::Function" |}).
  - vm_compute. reflexivity.
  - apply (bool_decide_unpack _). vm_compute. exact I.
  - discriminate.
  - discriminate.
  - reflexivity.
Defined.

(** X10.  Without an attribute, [Fn::GetAtt] is [Ref] on the inventory: an
    absent, null, empty or otherwise falsy attribute gives the physical id
    of the record, whatever its kind, and the formatter table is not
    consulted.  In particular the single-string form takes the whole
    string, dots included, as the logical id. *)
Theorem getatt_without_attribute_is_physical_id self (logicalId physicalId : string)
    (attribute : value) (i : nat) (sr : StackResourceSummary) :
  list_find (fun sr => LogicalResourceId sr = logicalId) (stackResources self)
  = Some (i, sr) ->
  PhysicalResourceId sr = Some physicalId ->
  physicalId <> "" ->
  truthy attribute = false ->
  evaluateCfnExpression self (VObj [("Fn::GetAtt", VArr [VStr logicalId; attribute])])
  = Ok (VStr physicalId)
  /\ evaluateCfnExpression self (VObj [("Fn::GetAtt", VStr logicalId)])
     = Ok (VStr physicalId).
Proof.
  intros Hfind Hid Hne Hfalsy.
  assert (Hgetatt : forall att, truthy att = false ->
                      Fn_GetAtt self (VStr logicalId) att = Ok (VStr physicalId)).
  { intros att Hatt. unfold Fn_GetAtt, findGetAttTarget.
    rewrite find_resource_first, Hfind. cbn [fmap option_fmap option_map snd].
    unfold formatResourceAttribute. rewrite Hatt, Hid.
    cbn [negb mbind result_bind optional].
    by rewrite truthy_VStr, decide_False. }
  split.
  - rewrite GetAtt_node. by apply Hgetatt.
  - rewrite evaluate_intrinsic_node by (left; reflexivity).
    unfold evaluateIntrinsic. cbn [name args]. rewrite lookup_GetAtt.
    by apply (Hgetatt VUndefined).
Qed.

Lemma getatt_without_attribute_is_physical_id_witness :
  evaluateCfnExpression sample_session
    (VObj [("Fn::GetAtt", VArr [VStr "MyQueue"; VStr ""])]) = Ok (VStr "queue-1")
  /\ evaluateCfnExpression sample_session (VObj [("Fn::GetAtt", VStr "MyQueue")])
     = Ok (VStr "queue-1").
Proof.
  apply (getatt_without_attribute_is_physical_id sample_session "MyQueue" "queue-1"
           (VStr "") 3
           {| LogicalResourceId := "MyQueue"; PhysicalResourceId := Some "queue-1";
              ResourceType := "AWS::SQS::Queue" |}).
  - vm_compute. reflexivity.
  - reflexivity.
  - discriminate.
  - reflexivity.
Defined.

(** ** Sessions *)

(** X11.  On a session built by [constructor], [Ref] of a pseudo-parameter
    name gives the account, region, partition or URL suffix the session was
    built with, unless the caller's parameters bind that name, and then it
    gives the caller's value (both when not empty). *)
Theorem ref_of_pseudo_parameter (props : Props.t) (nm v : string) :
  v <> "" ->
  (Props.parameters props !! nm = None -> pseudo_value props nm = Some v ->
   evaluateCfnExpression (constructor props) (VObj [("Ref", VStr nm)]) = Ok (VStr v))
  /\ (Props.parameters props !! nm = Some v ->
      evaluateCfnExpression (constructor props) (VObj [("Ref", VStr nm)]) = Ok (VStr v)).
Proof.
  intros Hv.
  assert (Hctx : forall o, Props.parameters props !! nm = o ->
                   context (constructor props) !! nm
                   = match o with Some w => Some w | None => pseudo_value props nm end).
  { intros o <-. unfold constructor, spread. cbn [context].
    rewrite lookup_union, pseudo_parameters_lookup.
    destruct (Props.parameters props !! nm), (pseudo_value props nm); reflexivity. }
  split.
  - intros Hnone Hpseudo. rewrite Ref_node_handler.
    apply Ref_parameter; [| exact Hv]. by rewrite (Hctx None Hnone).
  - intros Hsome. rewrite Ref_node_handler.
    apply Ref_parameter; [| exact Hv]. by rewrite (Hctx (Some v) Hsome).
Qed.

Lemma ref_of_pseudo_parameter_witness :
  evaluateCfnExpression sample_session (VObj [("Ref", VStr "AWS::URLSuffix")])
  = Ok (VStr "amazonaws.com").
Proof.
  refine (proj1 (ref_of_pseudo_parameter
                   {| Props.parameters := {[ "Foo" := "bar" ]};
                      Props.account := "123456789012";
                      Props.region := "us-east-1";
                      Props.partition := "aws";
                      Props.urlSuffix := "amazonaws.com";
                      Props.listStackResources := stackResources sample_session |}
                   "AWS::URLSuffix" "amazonaws.com" _) _ _).
  - discriminate.
  - vm_compute. reflexivity.
  - reflexivity.
Defined.

(** X12.  [findPhysicalNameFor] gives the physical id of the first record
    with the logical id: records before it with another name and all records
    after it are not looked at; and it gives nothing when no record has the
    logical id. *)
Theorem findPhysicalNameFor_first_match self (logicalId : string)
    (before after : list StackResourceSummary) (sr : StackResourceSummary) :
  (stackResources self = before ++ sr :: after ->
   Forall (fun r => LogicalResourceId r <> logicalId) before ->
   LogicalResourceId sr = logicalId ->
   findPhysicalNameFor self (VStr logicalId) = PhysicalResourceId sr)
  /\ (Forall (fun r => LogicalResourceId r <> logicalId) (stackResources self) ->
      findPhysicalNameFor self (VStr logicalId) = None).
Proof.
  unfold findPhysicalNameFor, find_resource. split.
  - intros -> Hbefore Hname.
    induction Hbefore as [| r l Hr _ IH]; cbn [app List.find strict_eq_string].
    + rewrite Hname, String.eqb_refl. reflexivity.
    + destruct (String.eqb_spec (LogicalResourceId r) logicalId); [contradiction | exact IH].
  - intros Hall.
    induction Hall as [| r l Hr _ IH]; cbn [List.find strict_eq_string]; [reflexivity |].
    destruct (String.eqb_spec (LogicalResourceId r) logicalId); [contradiction | exact IH].
Qed.

Lemma findPhysicalNameFor_first_match_witness :
  findPhysicalNameFor sample_session (VStr "MyBucket") = Some "my-bucket-1".
Proof.
  refine (proj1 (findPhysicalNameFor_first_match sample_session "MyBucket"
                   [{| LogicalResourceId := "MyRole"; PhysicalResourceId := Some "role-1";
                       ResourceType := "AWS::IAM::Role" |}]
                   [{| LogicalResourceId := "MyFunction"; PhysicalResourceId := Some "fn-1";
                       ResourceType := "AWS::Lambda::Function" |};
                    {| LogicalResourceId := "MyQueue"; PhysicalResourceId := Some "queue-1";
                       ResourceType := "AWS::SQS::Queue" |}]
                   {| LogicalResourceId := "MyBucket";
                      PhysicalResourceId := Some "my-bucket-1";
                      ResourceType := "AWS::S3::Bucket" |}) _ _ _).
  - reflexivity.
  - repeat constructor. discriminate.
  - reflexivity.
Defined.

(** ** The segments of a resource type *)

Lemma split_scan_whole (d : ascii) (sep' piece cur : string) :
  JsString.contains_char d piece = false ->
  JsString.split_scan (String d sep') piece 0 cur = [cur +:+ piece].
Proof.
  intros Hfree. rewrite <- (append_nil_r piece) at 1.
  by rewrite split_scan_free.
Qed.

Lemma split_scan_double_colon (piece rest cur : string) :
  JsString.contains_char ":" piece = false ->
  JsString.split_scan "::" (piece +:+ "::" +:+ rest) 0 cur
  = (cur +:+ piece) :: JsString.split_scan "::" rest 0 "".
Proof.
  intros Hfree. rewrite split_scan_free by exact Hfree.
  change ("::" +:+ rest) with (String ":" (String ":" rest)).
  cbn [JsString.split_scan String.prefix String.length Nat.sub].
  destruct (Ascii.ascii_dec ":" ":") as [_ | Hne]; [| congruence].
  assert (Hprefix : String.prefix "" rest = true) by (by destruct rest).
  by rewrite Hprefix.
Qed.

(** X13.  For a resource type [namespace::service::kind], the service of the
    resource is [service] in lower case and its ARN part is [kind] in lower
    case; for a type without any colon both reads fail in the runtime, since
    the split yields a single segment. *)
Theorem resource_type_segments (ns service kind : string)
    (resource : StackResourceSummary) :
  (ResourceType resource = ns +:+ "::" +:+ service +:+ "::" +:+ kind ->
   JsString.contains_char ":" ns = false ->
   JsString.contains_char ":" service = false ->
   JsString.contains_char ":" kind = false ->
   getServiceOfResource resource = Ok (JsString.toLowerCase service)
   /\ getResourceTypeArnPartOfResource resource = Ok (JsString.toLowerCase kind))
  /\ (JsString.contains_char ":" (ResourceType resource) = false ->
      getServiceOfResource resource = TypeError
      /\ getResourceTypeArnPartOfResource resource = TypeError).
Proof.
  unfold getServiceOfResource, getResourceTypeArnPartOfResource, type_segment,
    JsString.split.
  split.
  - intros -> Hns Hservice Hkind.
    rewrite !split_scan_double_colon by assumption.
    rewrite split_scan_whole by exact Hkind. split; reflexivity.
  - intros Hfree. rewrite split_scan_whole by exact Hfree. split; reflexivity.
Qed.

Lemma resource_type_segments_witness :
  getServiceOfResource
    {| LogicalResourceId := "T"; PhysicalResourceId := Some "t-1";
       ResourceType := "AWS::DynamoDB::Table" |} = Ok "dynamodb"
  /\ getResourceTypeArnPartOfResource
       {| LogicalResourceId := "T"; PhysicalResourceId := Some "t-1";
          ResourceType := "AWS::DynamoDB::Table" |} = Ok "table".
Proof.
  refine (proj1 (resource_type_segments "AWS" "DynamoDB" "Table"
                   {| LogicalResourceId := "T"; PhysicalResourceId := Some "t-1";
                      ResourceType := "AWS::DynamoDB::Table" |}) _ _ _ _);
    reflexivity.
Defined.

(** ** [asyncGlobalReplace] and [Fn::Sub], continued *)



Lemma sequence_total {A B : Type} (g : A -> B) (l : list A) :
  sequence (fun x => Ok (g x)) l = Ok (map g l).
Proof.
  induction l as [| x l IH]; [reflexivity |].
  cbn [sequence mbind result_bind]. by rewrite IH.
Qed.

Lemma weave_placeholders (segments : list (string * string)) (tail : string) :
  weave segments (map (fun key => VStr ("${" +:+ key +:+ "}")) (map snd segments)) tail
  = render segments tail.
Proof.
  induction segments as [| [literal key] rest IH]; [reflexivity |].
  cbn [map snd weave render join_element ToString]. rewrite IH.
  by rewrite !append_assoc.
Qed.

(** X15.  Replacing every placeholder by its own text gives back the
    string: the scan loses no character and repeats none, whatever the
    string. *)
Theorem asyncGlobalReplace_with_own_text (s : string) :
  asyncGlobalReplace (VStr s) (fun key => Ok (VStr ("${" +:+ key +:+ "}")))
  = Ok (VStr s).
Proof.
  destruct (template_has_parts s) as (segments & tail & -> & Hwf).
  unfold asyncGlobalReplace.
  pose proof (asyncGlobalReplace_loop_parts
                (fun key => Ok (VStr ("${" +:+ key +:+ "}")))
                segments tail Hwf (S (String.length (render segments tail))) "" [])
    as Hloop.
  change ("" +:+ render segments tail) with (render segments tail) in Hloop.
  change (String.length "") with O in Hloop.
  rewrite Hloop by (pose proof (render_length segments tail); lia).
  rewrite (sequence_total (fun key => VStr ("${" +:+ key +:+ "}"))).
  cbn [mbind result_bind app]. by rewrite join_pieces, weave_placeholders.
Qed.

Lemma no_placeholder (template : string) :
  (forall literal key rest, template <> literal +:+ "${" +:+ key +:+ "}" +:+ rest) ->
  has_placeholder template = false.
Proof.
  intros Hnone. destruct (has_placeholder template) eqn:Hp; [| reflexivity].
  destruct (first_placeholder template Hp) as (literal & key & rest & Ht & _).
  by destruct (Hnone literal key rest).
Qed.

Lemma asyncGlobalReplace_verbatim (template : string) (cb : string -> result value) :
  has_placeholder template = false ->
  asyncGlobalReplace (VStr template) cb = Ok (VStr template).
Proof.
  intros Hnone. unfold asyncGlobalReplace.
  assert (Hwf : well_formed_parts [] template) by (split; [constructor | exact Hnone]).
  pose proof (asyncGlobalReplace_loop_parts cb [] template Hwf
                (S (String.length template)) "" []) as Hloop.
  cbn [render] in Hloop.
  change ("" +:+ template) with template in Hloop.
  change (String.length "") with O in Hloop.
  rewrite Hloop by (simpl; lia). reflexivity.
Qed.

(** X16.  [Fn::Sub] evaluates the explicit placeholders before it looks at
    the template: their failure is the failure of [Fn::Sub] whatever the
    template is; and once they are evaluated, a template with no complete
    placeholder (no dollar sign and opening brace followed by a closing
    brace) is returned as it is, whatever the placeholders evaluated to. *)
Theorem sub_evaluates_placeholders_first self (explicitPlaceholders : value) :
  (forall template e,
     truthy explicitPlaceholders = true ->
     evaluateCfnExpression self explicitPlaceholders = Throw e ->
     evaluateCfnExpression self
       (VObj [("Fn::Sub", VArr [template; explicitPlaceholders])]) = Throw e)
  /\ (forall template : string,
        (forall literal key rest,
           template <> literal +:+ "${" +:+ key +:+ "}" +:+ rest) ->
        (truthy explicitPlaceholders = true ->
         exists placeholders,
           evaluateCfnExpression self explicitPlaceholders = Ok placeholders) ->
        evaluateCfnExpression self
          (VObj [("Fn::Sub", VArr [VStr template; explicitPlaceholders])])
        = Ok (VStr template)).
Proof.
  split.
  - intros template e Htruthy Hfail. rewrite Sub_node. unfold Fn_Sub.
    change (parameter 0 [explicitPlaceholders]) with explicitPlaceholders.
    by rewrite Htruthy, Hfail.
  - intros template Hnone Hgiven. rewrite Sub_node. unfold Fn_Sub.
    change (parameter 0 [explicitPlaceholders]) with explicitPlaceholders.
    assert (Hplain : forall cb,
               asyncGlobalReplace (VStr template) cb = Ok (VStr template)).
    { intros cb. apply asyncGlobalReplace_verbatim. by apply no_placeholder. }
    destruct (truthy explicitPlaceholders) eqn:Htruthy.
    + destruct (Hgiven eq_refl) as [placeholders ->]. apply Hplain.
    + apply Hplain.
Qed.

Lemma has_placeholder_complete (literal key rest : string) :
  has_placeholder (literal +:+ "${" +:+ key +:+ "}" +:+ rest) = true.
Proof.
  induction literal as [| c literal IH].
  - change (has_placeholder (String "$" (String "{" (key +:+ "}" +:+ rest))) = true).
    cbn [has_placeholder opens_placeholder].
    rewrite contains_char_append.
    change ("}" +:+ rest) with (String "}" rest). cbn [JsString.contains_char].
    rewrite Ascii.eqb_refl. cbn [orb]. by rewrite orb_true_r.
  - change (has_placeholder (String c (literal +:+ "${" +:+ key +:+ "}" +:+ rest)) = true).
    cbn [has_placeholder]. rewrite IH. apply orb_true_r.
Qed.

Lemma sub_evaluates_placeholders_first_witness :
  evaluateCfnExpression sample_session
    (VObj [("Fn::Sub", VArr [VStr "cost: 5$ {not a key} and ${unclosed"; VNum 7])])
  = Ok (VStr "cost: 5$ {not a key} and ${unclosed").
Proof.
  apply (proj2 (sub_evaluates_placeholders_first sample_session (VNum 7))).
  - intros literal key rest Heq.
    pose proof (has_placeholder_complete literal key rest) as Hp.
    rewrite <- Heq in Hp. vm_compute in Hp. discriminate Hp.
  - intros _. exists (VNum 7). reflexivity.
Defined.



(** ** Names that every object answers to *)

(** X21.  [Ref] of the name of a member of [Object.prototype] that the
    context has no entry for is not resolved against the inventory and is
    not rejected: it returns the built-in of that name, whatever the
    inventory holds. *)
Theorem ref_of_inherited_name self (nm : string) :
  inherited nm = true ->
  context self !! nm = None ->
  evaluateCfnExpression self (VObj [("Ref", VStr nm)]) = Ok (VNative nm).
Proof.
  intros Hname Hctx. rewrite Ref_node_handler. by apply Ref_inherited.
Qed.

Lemma ref_of_inherited_name_witness :
  evaluateCfnExpression sample_session (VObj [("Ref", VStr "constructor")])
  = Ok (VNative "constructor").
Proof.
  apply (ref_of_inherited_name sample_session "constructor").
  - reflexivity.
  - vm_compute. reflexivity.
Defined.
